(** * The shader build helper of [depend/shader_s.h]

    The class [Shader] reads two GLSL source files, compiles each one as
    a shader object, links both into a program object, prints the
    driver's diagnostics on [std::cout] and offers [use], [setBool],
    [setInt] and [setFloat] on the resulting program name.

    The development has three layers:
    - [GL]: the part of the OpenGL object model that the class talks to
      (shader objects, program objects, the current program, uniforms,
      the error flag).  The GLSL compiler and linker are an interface,
      [Driver].
    - the execution monad [M]: a world (files, the file streams of the
      constructor, GL context, [std::cout], a log of the calls made)
      threaded through computations that may raise a C++ exception.
    - the class itself, one definition per member function. *)

From stdpp Require Import gmap strings list fin_maps.
From Stdlib Require Import ZArith String Ascii.

Open Scope string_scope.
Open Scope list_scope.

Set Warnings "-clear-no-such-hyp".

(** ** Strings as the C++ code handles them *)

(** The line feed written by ["\n"] and by [std::endl]. *)
Definition nl : string := String (ascii_of_nat 10) EmptyString.

(** [std::string::c_str] read back as a NUL-terminated C string: the
    characters before the first NUL.  [glShaderSource] is called with a
    [NULL] length array and [glGetUniformLocation] takes a C string, so
    this is what the driver receives. *)
Fixpoint c_str (s : string) : string :=
  match s with
  | EmptyString => EmptyString
  | String c s' =>
      if Ascii.eqb c zero then EmptyString else String c (c_str s')
  end.

(** ** The OpenGL objects used by the class *)

(** The driver is not part of the repository.  The entry points below
    follow the OpenGL reference pages for the calls the class makes.
    The rules that matter to the class are:
    - a call that the driver rejects changes no object and records its
      error code in the error flag of the context, which keeps the
      first code recorded ([glGetError], which would clear it, is never
      called by the class);
    - [glLinkProgram] fails when an attached shader is not compiled;
    - [glDeleteShader] only flags a shader that is attached to a program;
    - [glUseProgram] installs a program only if it is linked;
    - [glGetUniformLocation] wants a linked program, returns -1 for a
      name that is no active uniform, and finds the first element of an
      array under the name of the array as well;
    - [glUniform1i] and [glUniform1f] write to the current program,
      ignore location -1, and reject a value of the wrong type and a
      texture unit that does not exist. *)

Module GL.

Inductive shader_type := GL_VERTEX_SHADER | GL_FRAGMENT_SHADER.

Inductive uniform_type := GL_BOOL | GL_INT | GL_FLOAT | GL_SAMPLER_2D.

(** A [float] is kept as its 32 bit pattern: the class only passes
    floats through. *)
Inductive uniform_value :=
| VBool (b : bool)
| VInt (i : Z)
| VFloat (bits : Z).

(** One uniform location.  Each element of an array has a location of
    its own and is named with its index, ["a[0]"], ["a[1]"], ... *)
Record uniform := {
  u_name : string;
  u_type : uniform_type;
  u_value : uniform_value
}.

Record shader_obj := {
  so_type : shader_type;
  so_source : string;
  so_compile_status : bool;
  so_info_log : string;
  so_delete_status : bool
}.

Record program_obj := {
  po_attached : list N;
  po_link_status : bool;
  po_info_log : string;
  po_uniforms : list uniform
}.

(** The error codes that the calls of the class can raise. *)
Inductive error_code := GL_NO_ERROR | GL_INVALID_VALUE | GL_INVALID_OPERATION.

(** Shader and program objects share one name space; name 0 is never
    an object.  [current_program] is the program installed by
    [glUseProgram], 0 when there is none.  [error_flag] is what
    [glGetError] would return. *)
Record context := {
  shaders : gmap N shader_obj;
  programs : gmap N program_obj;
  current_program : N;
  error_flag : error_code
}.

Definition initial : context :=
  {| shaders := ∅; programs := ∅; current_program := 0%N;
     error_flag := GL_NO_ERROR |}.

(** The GLSL implementation behind the entry points.  What a source
    text compiles to, and what a set of compiled sources links to, is
    the driver's business; the object model below is the same for all
    drivers.  [glsl_link] is consulted only when every attached shader
    has been compiled successfully, and returns the link status, the
    info log and the active uniform locations in order, the elements of
    an array being consecutive entries.  The number of texture units is
    the driver's as well; OpenGL 3.3, which the programs of the
    repository ask for at least, requires 48 or more. *)
Class Driver := {
  glsl_compile : shader_type → string → bool * string;
  glsl_link : list (shader_type * string) → bool * string * list (string * uniform_type);
  uncompiled_link_log : string;
  max_combined_texture_image_units : Z;
  texture_units_minimum : (48 ≤ max_combined_texture_image_units)%Z
}.

Definition names (c : context) : gset N :=
  dom (shaders c) ∪ dom (programs c) ∪ {[ 0%N ]}.

(** A name that is not in use. *)
Definition fresh_name (c : context) : N := fresh (names c).

Definition set_shader (s : N) (so : shader_obj) (c : context) : context :=
  {| shaders := <[s := so]> (shaders c);
     programs := programs c;
     current_program := current_program c;
     error_flag := error_flag c |}.

Definition set_program (p : N) (po : program_obj) (c : context) : context :=
  {| shaders := shaders c;
     programs := <[p := po]> (programs c);
     current_program := current_program c;
     error_flag := error_flag c |}.

(** A rejected call: the flag takes the code unless it already holds
    one. *)
Definition record_error (e : error_code) (c : context) : context :=
  match error_flag c with
  | GL_NO_ERROR =>
      {| shaders := shaders c; programs := programs c;
         current_program := current_program c; error_flag := e |}
  | _ => c
  end.

(** A call that needs a shader object was given [s], which is none:
    [GL_INVALID_OPERATION] when [s] is a program object,
    [GL_INVALID_VALUE] when it is no object at all. *)
Definition no_shader (s : N) (c : context) : context :=
  record_error
    (match programs c !! s with
     | Some _ => GL_INVALID_OPERATION
     | None => GL_INVALID_VALUE
     end) c.

(** The same for a call that needs a program object. *)
Definition no_program (p : N) (c : context) : context :=
  record_error
    (match shaders c !! p with
     | Some _ => GL_INVALID_OPERATION
     | None => GL_INVALID_VALUE
     end) c.

Definition zero_value (t : uniform_type) : uniform_value :=
  match t with
  | GL_BOOL => VBool false
  | GL_INT | GL_SAMPLER_2D => VInt 0
  | GL_FLOAT => VFloat 0
  end.

Definition fresh_uniform (d : string * uniform_type) : uniform :=
  {| u_name := d.1; u_type := d.2; u_value := zero_value d.2 |}.

(** Does [name] find the uniform [u]?  It does when it is the name of
    [u], and also when [u] is the first element of the array of that
    name. *)
Definition names_uniform (name : string) (u : uniform) : bool :=
  String.eqb (u_name u) name || String.eqb (u_name u) (name +:+ "[0]").

(** The location of [name] in a uniform table, -1 when nothing is found
    under it. *)
Fixpoint location_of (name : string) (us : list uniform) : Z :=
  match us with
  | [] => -1
  | u :: us' =>
      if names_uniform name u then 0
      else
        let r := location_of name us' in
        if (r <? 0)%Z then -1 else (r + 1)%Z
  end.

(** What the driver makes of a value written to a uniform. *)
Inductive write_result :=
| Accepted (v : uniform_value)
| Rejected (e : error_code).

Definition set_value (v : uniform_value) (u : uniform) : uniform :=
  {| u_name := u_name u; u_type := u_type u; u_value := v |}.

(** Is shader [s] attached to some program object? *)
Definition is_attached (s : N) (c : context) : bool :=
  existsb (λ kv : N * program_obj, bool_decide (s ∈ po_attached kv.2))
          (map_to_list (programs c)).

Section EntryPoints.
Context {D : Driver}.

(** What [glUniform1i] stores in a uniform of type [t].  A [float]
    cannot be loaded with an integer, and a sampler only takes the
    number of a texture unit. *)
Definition store_1i (t : uniform_type) (v : Z) : write_result :=
  match t with
  | GL_INT => Accepted (VInt v)
  | GL_SAMPLER_2D =>
      if (0 <=? v)%Z && (v <? max_combined_texture_image_units)%Z
      then Accepted (VInt v)
      else Rejected GL_INVALID_VALUE
  | GL_BOOL => Accepted (VBool (negb (v =? 0)%Z))
  | GL_FLOAT => Rejected GL_INVALID_OPERATION
  end.

(** What [glUniform1f] stores; +0.0 and -0.0 are the patterns whose low
    31 bits vanish. *)
Definition store_1f (t : uniform_type) (bits : Z) : write_result :=
  match t with
  | GL_FLOAT => Accepted (VFloat bits)
  | GL_BOOL => Accepted (VBool (negb (Z.land bits 2147483647 =? 0)%Z))
  | GL_INT | GL_SAMPLER_2D => Rejected GL_INVALID_OPERATION
  end.

Definition glCreateShader (t : shader_type) (c : context) : N * context :=
  let n := fresh_name c in
  (n, set_shader n {| so_type := t; so_source := EmptyString;
                      so_compile_status := false;
                      so_info_log := EmptyString;
                      so_delete_status := false |} c).

Definition glShaderSource (s : N) (src : string) (c : context) : context :=
  match shaders c !! s with
  | Some so =>
      set_shader s {| so_type := so_type so; so_source := src;
                      so_compile_status := so_compile_status so;
                      so_info_log := so_info_log so;
                      so_delete_status := so_delete_status so |} c
  | None => no_shader s c
  end.

Definition glCompileShader (s : N) (c : context) : context :=
  match shaders c !! s with
  | Some so =>
      let r := glsl_compile (so_type so) (so_source so) in
      set_shader s {| so_type := so_type so; so_source := so_source so;
                      so_compile_status := r.1;
                      so_info_log := r.2;
                      so_delete_status := so_delete_status so |} c
  | None => no_shader s c
  end.

(** The context after a query about the shader object [s]. *)
Definition shader_query (s : N) (c : context) : context :=
  match shaders c !! s with
  | Some _ => c
  | None => no_shader s c
  end.

(** The context after a query about the program object [p];
    [needs_link] says whether the query wants [p] to be linked. *)
Definition program_query (needs_link : bool) (p : N) (c : context) : context :=
  match programs c !! p with
  | Some po =>
      if needs_link && negb (po_link_status po)
      then record_error GL_INVALID_OPERATION c
      else c
  | None => no_program p c
  end.

(** [glGetShaderiv(s, GL_COMPILE_STATUS, &success)]; [None] when [s]
    is no shader object and [success] is left as it was. *)
Definition glGetShaderiv (s : N) (c : context) : option bool :=
  so_compile_status <$> shaders c !! s.

(** The log cut to fit a buffer of [maxLength] characters, the last
    one being the terminating NUL. *)
Definition glGetShaderInfoLog (s : N) (maxLength : nat) (c : context) : option string :=
  (λ so, substring 0 (maxLength - 1) (so_info_log so)) <$> shaders c !! s.

Definition glCreateProgram (c : context) : N * context :=
  let n := fresh_name c in
  (n, set_program n {| po_attached := []; po_link_status := false;
                       po_info_log := EmptyString; po_uniforms := [] |} c).

Definition glAttachShader (p s : N) (c : context) : context :=
  match programs c !! p with
  | Some po =>
      match shaders c !! s with
      | Some _ =>
          if bool_decide (s ∈ po_attached po)
          then record_error GL_INVALID_OPERATION c
          else set_program p {| po_attached := po_attached po ++ [s];
                                po_link_status := po_link_status po;
                                po_info_log := po_info_log po;
                                po_uniforms := po_uniforms po |} c
      | None => no_shader s c
      end
  | None => no_program p c
  end.

(** Linking fails when an attached shader is not compiled; otherwise
    the GLSL linker decides.  A successful link installs the active
    uniforms with their zero values, a failed one leaves none. *)
Definition glLinkProgram (p : N) (c : context) : context :=
  match programs c !! p with
  | Some po =>
      let objs := omap (λ s, shaders c !! s) (po_attached po) in
      if forallb so_compile_status objs then
        let r := glsl_link (map (λ so, (so_type so, so_source so)) objs) in
        set_program p {| po_attached := po_attached po;
                         po_link_status := r.1.1;
                         po_info_log := r.1.2;
                         po_uniforms :=
                           if r.1.1 then map fresh_uniform r.2 else [] |} c
      else
        set_program p {| po_attached := po_attached po;
                         po_link_status := false;
                         po_info_log := uncompiled_link_log;
                         po_uniforms := [] |} c
  | None => no_program p c
  end.

Definition glGetProgramiv (p : N) (c : context) : option bool :=
  po_link_status <$> programs c !! p.

Definition glGetProgramInfoLog (p : N) (maxLength : nat) (c : context) : option string :=
  (λ po, substring 0 (maxLength - 1) (po_info_log po)) <$> programs c !! p.

(** An attached shader is only flagged for deletion; it goes away
    when it is detached.  An unattached one is deleted at once.  Name 0
    is ignored. *)
Definition glDeleteShader (s : N) (c : context) : context :=
  match shaders c !! s with
  | Some so =>
      if is_attached s c then
        set_shader s {| so_type := so_type so; so_source := so_source so;
                        so_compile_status := so_compile_status so;
                        so_info_log := so_info_log so;
                        so_delete_status := true |} c
      else
        {| shaders := delete s (shaders c);
           programs := programs c;
           current_program := current_program c;
           error_flag := error_flag c |}
  | None => if (s =? 0)%N then c else no_shader s c
  end.

(** Only a successfully linked program (or 0) can be made current. *)
Definition glUseProgram (p : N) (c : context) : context :=
  if (p =? 0)%N then
    {| shaders := shaders c; programs := programs c; current_program := 0%N;
       error_flag := error_flag c |}
  else
    match programs c !! p with
    | Some po =>
        if po_link_status po then
          {| shaders := shaders c; programs := programs c; current_program := p;
             error_flag := error_flag c |}
        else record_error GL_INVALID_OPERATION c
    | None => no_program p c
    end.

(** The value returned by [glGetUniformLocation(p, name)]; the context
    after the call is [program_query true p]. *)
Definition glGetUniformLocation (p : N) (name : string) (c : context) : Z :=
  match programs c !! p with
  | Some po =>
      if po_link_status po then location_of name (po_uniforms po) else (-1)%Z
  | None => (-1)%Z
  end.

(** [glUniform1i] and [glUniform1f] write to the uniform at [loc] of
    the CURRENT program.  Without a current program the call is
    rejected.  Location -1 is ignored; any other location that is not
    one of the program is rejected, and so is a value that the type of
    the uniform does not take. *)
Definition write_uniform (store : uniform_type → write_result)
           (loc : Z) (c : context) : context :=
  match programs c !! current_program c with
  | Some po =>
      if (loc =? -1)%Z then c
      else
        match (if (loc <? 0)%Z then None else po_uniforms po !! Z.to_nat loc) with
        | Some u =>
            match store (u_type u) with
            | Accepted v =>
                set_program (current_program c)
                  {| po_attached := po_attached po;
                     po_link_status := po_link_status po;
                     po_info_log := po_info_log po;
                     po_uniforms :=
                       <[Z.to_nat loc := set_value v u]> (po_uniforms po) |} c
            | Rejected e => record_error e c
            end
        | None => record_error GL_INVALID_OPERATION c
        end
  | None => record_error GL_INVALID_OPERATION c
  end.

Definition glUniform1i (loc : Z) (v : Z) : context → context :=
  write_uniform (λ t, store_1i t v) loc.

Definition glUniform1f (loc : Z) (bits : Z) : context → context :=
  write_uniform (λ t, store_1f t bits) loc.

(** The value the driver reports for the uniform at [loc] of program
    [p] (the [glGetUniform] family); [None] when there is no such
    uniform and nothing is reported. *)
Definition glGetUniform (p : N) (loc : Z) (c : context) : option uniform_value :=
  if (loc <? 0)%Z then None
  else
    po ← programs c !! p;
    u ← po_uniforms po !! Z.to_nat loc;
    Some (u_value u).

End EntryPoints.

(** *** The objects a build leaves behind *)

Section Built.
Context {D : Driver}.

(** The shader object after [glShaderSource] with [src] and
    [glCompileShader]; [deleted] is its deletion flag. *)
Definition compiled (t : shader_type) (src : string) (deleted : bool) : shader_obj :=
  {| so_type := t; so_source := src;
     so_compile_status := (glsl_compile t src).1;
     so_info_log := (glsl_compile t src).2;
     so_delete_status := deleted |}.

(** The program object after attaching a vertex shader [v] holding
    [vsrc] and a fragment shader [f] holding [fsrc], both compiled,
    and [glLinkProgram]. *)
Definition linked (v f : N) (vsrc fsrc : string) : program_obj :=
  if (glsl_compile GL_VERTEX_SHADER vsrc).1 &&
     (glsl_compile GL_FRAGMENT_SHADER fsrc).1
  then
    let r := glsl_link [(GL_VERTEX_SHADER, vsrc); (GL_FRAGMENT_SHADER, fsrc)] in
    {| po_attached := [v; f]; po_link_status := r.1.1;
       po_info_log := r.1.2;
       po_uniforms := if r.1.1 then map fresh_uniform r.2 else [] |}
  else
    {| po_attached := [v; f]; po_link_status := false;
       po_info_log := uncompiled_link_log; po_uniforms := [] |}.

End Built.

(** [name] finds an active uniform of the linked program [p]. *)
Definition active_uniform (p : N) (name : string) (c : context) : Prop :=
  ∃ po, programs c !! p = Some po ∧ po_link_status po = true ∧
        ∃ u, u ∈ po_uniforms po ∧ names_uniform name u = true.

End GL.

(** ** The execution monad *)

(** The calls the class makes, logged in program order.  The log is
    ghost state: it lets a statement say that a call happened.  A file
    that a stream closes when it is destroyed is logged as closed. *)
Inductive event :=
| EvOpen (path : string)
| EvReadAll (path : string)
| EvClose (path : string)
| EvCreateShader (t : GL.shader_type) (name : N)
| EvShaderSource (s : N) (src : string)
| EvCompileShader (s : N)
| EvGetShaderiv (s : N)
| EvGetShaderInfoLog (s : N)
| EvCreateProgram (name : N)
| EvAttachShader (p s : N)
| EvLinkProgram (p : N)
| EvGetProgramiv (p : N)
| EvGetProgramInfoLog (p : N)
| EvDeleteShader (s : N)
| EvUseProgram (p : N)
| EvGetUniformLocation (p : N) (name : string) (loc : Z)
| EvUniform1i (loc v : Z)
| EvUniform1f (loc bits : Z).

(** What a path that can be opened for reading leads to: a file with
    its bytes, or something that [open] accepts and [read] refuses (a
    directory on Linux). *)
Inductive node :=
| File (content : string)
| Unreadable.

Definition content_of (n : node) : string :=
  match n with
  | File content => content
  | Unreadable => EmptyString
  end.

(** The two [std::ifstream] objects of the constructor. *)
Inductive ifstream := vShaderFile | fShaderFile.

Definition ifstream_eqb (a b : ifstream) : bool :=
  match a, b with
  | vShaderFile, vShaderFile | fShaderFile, fShaderFile => true
  | _, _ => false
  end.

(** [files] maps a path that can be opened for reading to what is
    there; [open_streams] holds the streams that have a file open, each
    with the path of its file; [cout] holds one string per output
    statement.  The streams are locals of the constructor; they are part
    of the world because what the [try] block did to them is still there
    in the handler and when they are destroyed. *)
Record world := {
  files : gmap string node;
  open_streams : list (ifstream * string);
  gl : GL.context;
  cout : list string;
  calls : list event
}.

Inductive exn := ifstream_failure.

Inductive outcome (A : Type) :=
| Ok (a : A)
| Raise (e : exn).
Arguments Ok {A} a.
Arguments Raise {A} e.

Definition M (A : Type) : Type := world → outcome A * world.

Definition ret {A} (a : A) : M A := λ w, (Ok a, w).

Definition bind {A B} (c : M A) (k : A → M B) : M B :=
  λ w, match c w with
       | (Ok a, w') => k a w'
       | (Raise e, w') => (Raise e, w')
       end.

Definition raise {A} (e : exn) : M A := λ w, (Raise e, w).

(** [try { body } catch (std::ifstream::failure e) { handler }] *)
Definition try_catch {A} (body : M A) (handler : M A) : M A :=
  λ w, match body w with
       | (Ok a, w') => (Ok a, w')
       | (Raise ifstream_failure, w') => handler w'
       end.

Notation "x <- c ;; k" := (bind c (λ x, k))
  (at level 100, c at next level, right associativity).
Notation "c ;; k" := (bind c (λ _, k))
  (at level 100, right associativity).

Definition log (e : event) : M unit :=
  λ w, (Ok tt, {| files := files w; open_streams := open_streams w;
                  gl := gl w; cout := cout w; calls := calls w ++ [e] |}).

(** [std::cout << ... << std::endl] *)
Definition print (s : string) : M unit :=
  λ w, (Ok tt, {| files := files w; open_streams := open_streams w;
                  gl := gl w; cout := cout w ++ [s]; calls := calls w |}).

Definition gl_update (f : GL.context → GL.context) : M unit :=
  λ w, (Ok tt, {| files := files w; open_streams := open_streams w;
                  gl := f (gl w); cout := cout w; calls := calls w |}).

Definition gl_query {A} (f : GL.context → A) : M A :=
  λ w, (Ok (f (gl w)), w).

Definition gl_create (f : GL.context → N * GL.context) : M N :=
  λ w, (Ok (f (gl w)).1,
        {| files := files w; open_streams := open_streams w;
           gl := (f (gl w)).2; cout := cout w; calls := calls w |}).

(** *** [std::ifstream] with [exceptions(failbit | badbit)] *)

(** The path of the file that a stream has open. *)
Definition path_of (s : ifstream) (l : list (ifstream * string)) : option string :=
  snd <$> List.find (λ x, ifstream_eqb x.1 s) l.

Definition without (s : ifstream) (l : list (ifstream * string))
  : list (ifstream * string) :=
  List.filter (λ x, negb (ifstream_eqb x.1 s)) l.

Definition set_streams (l : list (ifstream * string)) : M unit :=
  λ w, (Ok tt, {| files := files w; open_streams := l;
                  gl := gl w; cout := cout w; calls := calls w |}).

(** [std::ifstream s;] a new stream has no file open. *)
Definition ifstream_new (s : ifstream) : M unit :=
  λ w, set_streams (without s (open_streams w)) w.

(** [s.open(path)] sets [failbit] when the file cannot be opened or the
    stream already has a file open, and the exception mask turns that
    into a throw. *)
Definition ifstream_open (s : ifstream) (path : string) : M unit :=
  log (EvOpen path) ;;
  λ w, match path_of s (open_streams w), files w !! path with
       | None, Some _ => set_streams ((s, path) :: open_streams w) w
       | _, _ => raise ifstream_failure w
       end.

(** [stream << s.rdbuf()]: the whole content goes to the string
    stream.  When nothing can be read, the failure is recorded on the
    string stream, which has no exception mask, so nothing is thrown and
    the string stream stays empty. *)
Definition read_rdbuf (s : ifstream) : M string :=
  λ w, match path_of s (open_streams w) with
       | Some path =>
           (log (EvReadAll path) ;;
            ret (default EmptyString (content_of <$> files w !! path))) w
       | None => ret EmptyString w
       end.

(** [s.close()] sets [failbit] when the stream has no file open. *)
Definition ifstream_close (s : ifstream) : M unit :=
  λ w, match path_of s (open_streams w) with
       | Some path =>
           (log (EvClose path) ;; set_streams (without s (open_streams w))) w
       | None => raise ifstream_failure w
       end.

(** The destructor closes the file if one is open, and never throws. *)
Definition ifstream_destroy (s : ifstream) : M unit :=
  λ w, match path_of s (open_streams w) with
       | Some path =>
           (log (EvClose path) ;; set_streams (without s (open_streams w))) w
       | None => ret tt w
       end.

(** *** The driver calls, logged *)

Module Call.
Section WithDriver.
Context {D : GL.Driver}.

Definition glCreateShader (t : GL.shader_type) : M N :=
  n <- gl_create (GL.glCreateShader t) ;;
  log (EvCreateShader t n) ;;
  ret n.

Definition glShaderSource (s : N) (src : string) : M unit :=
  log (EvShaderSource s src) ;; gl_update (GL.glShaderSource s src).

Definition glCompileShader (s : N) : M unit :=
  log (EvCompileShader s) ;; gl_update (GL.glCompileShader s).

Definition glGetShaderiv (s : N) : M (option bool) :=
  log (EvGetShaderiv s) ;;
  success <- gl_query (GL.glGetShaderiv s) ;;
  gl_update (GL.shader_query s) ;;
  ret success.

Definition glGetShaderInfoLog (s : N) (maxLength : nat) : M (option string) :=
  log (EvGetShaderInfoLog s) ;;
  infoLog <- gl_query (GL.glGetShaderInfoLog s maxLength) ;;
  gl_update (GL.shader_query s) ;;
  ret infoLog.

Definition glCreateProgram : M N :=
  n <- gl_create GL.glCreateProgram ;;
  log (EvCreateProgram n) ;;
  ret n.

Definition glAttachShader (p s : N) : M unit :=
  log (EvAttachShader p s) ;; gl_update (GL.glAttachShader p s).

Definition glLinkProgram (p : N) : M unit :=
  log (EvLinkProgram p) ;; gl_update (GL.glLinkProgram p).

Definition glGetProgramiv (p : N) : M (option bool) :=
  log (EvGetProgramiv p) ;;
  success <- gl_query (GL.glGetProgramiv p) ;;
  gl_update (GL.program_query false p) ;;
  ret success.

Definition glGetProgramInfoLog (p : N) (maxLength : nat) : M (option string) :=
  log (EvGetProgramInfoLog p) ;;
  infoLog <- gl_query (GL.glGetProgramInfoLog p maxLength) ;;
  gl_update (GL.program_query false p) ;;
  ret infoLog.

Definition glDeleteShader (s : N) : M unit :=
  log (EvDeleteShader s) ;; gl_update (GL.glDeleteShader s).

Definition glUseProgram (p : N) : M unit :=
  log (EvUseProgram p) ;; gl_update (GL.glUseProgram p).

Definition glGetUniformLocation (p : N) (name : string) : M Z :=
  loc <- gl_query (GL.glGetUniformLocation p name) ;;
  gl_update (GL.program_query true p) ;;
  log (EvGetUniformLocation p name loc) ;;
  ret loc.

Definition glUniform1i (loc v : Z) : M unit :=
  log (EvUniform1i loc v) ;; gl_update (GL.glUniform1i loc v).

Definition glUniform1f (loc bits : Z) : M unit :=
  log (EvUniform1f loc bits) ;; gl_update (GL.glUniform1f loc bits).

End WithDriver.
End Call.

(** ** The class [Shader] *)

Module Shader.

Record t := { ID : N }.

Definition file_diagnostic : string :=
  "ERROR::SHADER::FILE_NOT_SUCCESFULLY_READ" +:+ nl.

Definition rule : string :=
  " -- --------------------------------------------------- -- ".

Definition compile_diagnostic (type infoLog : string) : string :=
  "ERROR::SHADER_COMPILATION_ERROR of type: " +:+ type +:+ nl +:+ infoLog
    +:+ nl +:+ rule +:+ nl.

Definition link_diagnostic (type infoLog : string) : string :=
  "ERROR::PROGRAM_LINKING_ERROR of type: " +:+ type +:+ nl +:+ infoLog
    +:+ nl +:+ rule +:+ nl.

Section WithDriver.
Context {D : GL.Driver}.

(** [success] and [infoLog] are written by the driver only when the
    name is an object of the right kind; the constructor always
    passes one (lemma [status_queries_defined]).  Otherwise both are
    left uninitialised, modelled here as nothing being printed. *)
Definition checkCompileErrors (shader : N) (type : string) : M unit :=
  if negb (String.eqb type "PROGRAM") then
    success <- Call.glGetShaderiv shader ;;
    match success with
    | Some false =>
        infoLog <- Call.glGetShaderInfoLog shader 1024 ;;
        print (compile_diagnostic type (default EmptyString infoLog))
    | _ => ret tt
    end
  else
    success <- Call.glGetProgramiv shader ;;
    match success with
    | Some false =>
        infoLog <- Call.glGetProgramInfoLog shader 1024 ;;
        print (link_diagnostic type (default EmptyString infoLog))
    | _ => ret tt
    end.

(** The [try] block of the constructor.  [vertexCode] and
    [fragmentCode] are assigned at its very end. *)
Definition read_sources (vertexPath fragmentPath : string) : M (string * string) :=
  ifstream_open vShaderFile vertexPath ;;
  ifstream_open fShaderFile fragmentPath ;;
  vShaderStream <- read_rdbuf vShaderFile ;;
  fShaderStream <- read_rdbuf fShaderFile ;;
  ifstream_close vShaderFile ;;
  ifstream_close fShaderFile ;;
  ret (vShaderStream, fShaderStream).

(** The part of the constructor after the sources are in memory. *)
Definition compile_and_link (vertexCode fragmentCode : string) : M t :=
  let vShaderCode := c_str vertexCode in
  let fShaderCode := c_str fragmentCode in
  vertex <- Call.glCreateShader GL.GL_VERTEX_SHADER ;;
  Call.glShaderSource vertex vShaderCode ;;
  Call.glCompileShader vertex ;;
  checkCompileErrors vertex "VERTEX" ;;
  fragment <- Call.glCreateShader GL.GL_FRAGMENT_SHADER ;;
  Call.glShaderSource fragment fShaderCode ;;
  Call.glCompileShader fragment ;;
  checkCompileErrors fragment "FRAGMENT" ;;
  ID <- Call.glCreateProgram ;;
  Call.glAttachShader ID vertex ;;
  Call.glAttachShader ID fragment ;;
  Call.glLinkProgram ID ;;
  checkCompileErrors ID "PROGRAM" ;;
  Call.glDeleteShader vertex ;;
  Call.glDeleteShader fragment ;;
  ret {| ID := ID |}.

(** [Shader::Shader(vertexPath, fragmentPath)].  The two streams are
    declared before the [try] block and destroyed when the constructor
    ends, the one declared last first. *)
Definition Shader (vertexPath fragmentPath : string) : M t :=
  ifstream_new vShaderFile ;;
  ifstream_new fShaderFile ;;
  codes <- try_catch (read_sources vertexPath fragmentPath)
             (print file_diagnostic ;; ret (EmptyString, EmptyString)) ;;
  self <- compile_and_link codes.1 codes.2 ;;
  ifstream_destroy fShaderFile ;;
  ifstream_destroy vShaderFile ;;
  ret self.

Definition use (self : t) : M unit :=
  Call.glUseProgram (ID self).

Definition setBool (self : t) (name : string) (value : bool) : M unit :=
  loc <- Call.glGetUniformLocation (ID self) (c_str name) ;;
  Call.glUniform1i loc (Z.b2z value).

Definition setInt (self : t) (name : string) (value : Z) : M unit :=
  loc <- Call.glGetUniformLocation (ID self) (c_str name) ;;
  Call.glUniform1i loc value.

Definition setFloat (self : t) (name : string) (value : Z) : M unit :=
  loc <- Call.glGetUniformLocation (ID self) (c_str name) ;;
  Call.glUniform1f loc value.

End WithDriver.
End Shader.

(** ** Reading the output and driving the object *)

(** The three kinds of text the class prints, recognised on one output
    statement by the way the text begins. *)
Definition is_file_diagnostic (s : string) : bool :=
  String.prefix "ERROR::SHADER::FILE_NOT_SUCCESFULLY_READ" s.

Definition is_compile_diagnostic (type : string) (s : string) : bool :=
  String.prefix ("ERROR::SHADER_COMPILATION_ERROR of type: " +:+ type +:+ nl) s.

Definition is_any_compile_diagnostic (s : string) : bool :=
  String.prefix "ERROR::SHADER_COMPILATION_ERROR of type: " s.

Definition is_link_diagnostic (s : string) : bool :=
  String.prefix "ERROR::PROGRAM_LINKING_ERROR of type: " s.

Definition count (P : string → bool) (out : list string) : nat :=
  List.length (List.filter P out).

(** The tag the constructor passes to [checkCompileErrors] for a stage. *)
Definition stage_tag (t : GL.shader_type) : string :=
  match t with
  | GL.GL_VERTEX_SHADER => "VERTEX"
  | GL.GL_FRAGMENT_SHADER => "FRAGMENT"
  end.

(** What belongs to a stage, out of a vertex and a fragment item (the
    paths, the sources). *)
Definition pick {A} (t : GL.shader_type) (vertex fragment : A) : A :=
  match t with
  | GL.GL_VERTEX_SHADER => vertex
  | GL.GL_FRAGMENT_SHADER => fragment
  end.

Definition other_stage (t : GL.shader_type) : GL.shader_type :=
  match t with
  | GL.GL_VERTEX_SHADER => GL.GL_FRAGMENT_SHADER
  | GL.GL_FRAGMENT_SHADER => GL.GL_VERTEX_SHADER
  end.

(** A call of one of the public member functions. *)
Inductive uniform_arg :=
| BoolArg (value : bool)
| IntArg (value : Z)
| FloatArg (value : Z).

Inductive method :=
| Use
| SetUniform (name : string) (arg : uniform_arg).

(** The driver write that a uniform-set call ends with. *)
Definition write_event (loc : Z) (arg : uniform_arg) : event :=
  match arg with
  | BoolArg value => EvUniform1i loc (Z.b2z value)
  | IntArg value => EvUniform1i loc value
  | FloatArg value => EvUniform1f loc value
  end.

Section Calls.
Context {D : GL.Driver}.

Definition set_uniform (self : Shader.t) (name : string) (arg : uniform_arg) : M unit :=
  match arg with
  | BoolArg value => Shader.setBool self name value
  | IntArg value => Shader.setInt self name value
  | FloatArg value => Shader.setFloat self name value
  end.

(** The member function is run on the object, which is then handed to
    the next call. *)
Definition invoke (self : Shader.t) (m : method) : M Shader.t :=
  match m with
  | Use => Shader.use self ;; ret self
  | SetUniform name arg => set_uniform self name arg ;; ret self
  end.

Fixpoint run_calls (self : Shader.t) (ms : list method) : M Shader.t :=
  match ms with
  | [] => ret self
  | m :: ms' => self' <- invoke self m ;; run_calls self' ms'
  end.

(** What the write issued by a uniform-set call stores in a uniform of
    type [t]: [setBool] and [setInt] go through [glUniform1i], [setFloat]
    through [glUniform1f]. *)
Definition stored (arg : uniform_arg) (t : GL.uniform_type) : GL.write_result :=
  match arg with
  | BoolArg value => GL.store_1i t (Z.b2z value)
  | IntArg value => GL.store_1i t value
  | FloatArg value => GL.store_1f t value
  end.

End Calls.

(** ** A small driver and disk for concrete runs *)

Module Demo.

Definition vertex_ok : string :=
  "void main() { gl_Position = vec4(0.0); }".

(** The same shader with the semicolon missing. *)
Definition vertex_bad : string :=
  "void main() { gl_Position = vec4(0.0) }".

Definition fragment_int : string :=
  "uniform int u_name; void main() { gl_FragColor = vec4(float(u_name)); }".

Definition fragment_float : string :=
  "uniform float u_name; void main() { gl_FragColor = vec4(u_name); }".

Definition fragment_two : string :=
  "uniform int first; uniform int u_name; void main() { gl_FragColor = vec4(float(first + u_name)); }".

Definition fragment_texture : string :=
  "uniform sampler2D ourTexture; uniform float weight[2]; void main() { gl_FragColor = (weight[0] + weight[1]) * texture2D(ourTexture, vec2(0.0)); }".

Definition accepted (t : GL.shader_type) : list string :=
  match t with
  | GL.GL_VERTEX_SHADER => [vertex_ok]
  | GL.GL_FRAGMENT_SHADER =>
      [fragment_int; fragment_float; fragment_two; fragment_texture]
  end.

Definition compile (t : GL.shader_type) (src : string) : bool * string :=
  if existsb (String.eqb src) (accepted t) then (true, EmptyString)
  else (false, "0:1: syntax error").

Definition uniforms_of (src : string) : list (string * GL.uniform_type) :=
  if String.eqb src fragment_int then [("u_name", GL.GL_INT)]
  else if String.eqb src fragment_float then [("u_name", GL.GL_FLOAT)]
  else if String.eqb src fragment_two then
    [("first", GL.GL_INT); ("u_name", GL.GL_INT)]
  else if String.eqb src fragment_texture then
    [("ourTexture", GL.GL_SAMPLER_2D); ("weight[0]", GL.GL_FLOAT);
     ("weight[1]", GL.GL_FLOAT)]
  else [].

Definition link (units : list (GL.shader_type * string))
  : bool * string * list (string * GL.uniform_type) :=
  match units with
  | [(GL.GL_VERTEX_SHADER, vs); (GL.GL_FRAGMENT_SHADER, fs)] =>
      (true, EmptyString, uniforms_of fs)
  | _ => (false, "error: a vertex and a fragment shader are required", [])
  end.

Definition driver : GL.Driver :=
  {| GL.glsl_compile := compile;
     GL.glsl_link := link;
     GL.uncompiled_link_log := "error: linking with uncompiled shader";
     GL.max_combined_texture_image_units := 48;
     GL.texture_units_minimum := Z.le_refl 48 |}.

#[local] Existing Instance driver.

(** ["shaders"] is a directory. *)
Definition disk : gmap string node :=
  list_to_map
    [("shader.vs", File vertex_ok); ("broken.vs", File vertex_bad);
     ("shader.fs", File fragment_int); ("float.fs", File fragment_float);
     ("two.fs", File fragment_two); ("texture.fs", File fragment_texture);
     ("shaders", Unreadable)].

Definition start : world :=
  {| files := disk; open_streams := []; gl := GL.initial; cout := [];
     calls := [] |}.

(** The object and the world left by building the good pair. *)
Definition good : Shader.t := {| Shader.ID := 3 |}.

Definition built : world :=
  (Shader.Shader "shader.vs" "shader.fs" start).2.

Definition good_program (value : Z) : GL.program_obj :=
  {| GL.po_attached := [1%N; 2%N]; GL.po_link_status := true;
     GL.po_info_log := EmptyString;
     GL.po_uniforms :=
       [{| GL.u_name := "u_name"; GL.u_type := GL.GL_INT;
           GL.u_value := GL.VInt value |}] |}.

(** The world after [use] on the good object. *)
Definition in_use : world :=
  (Shader.use good built).2.

(** A program with an [int] uniform is built and the uniform is set
    without the program having been made current. *)
Definition set_without_use : M Shader.t :=
  sh <- Shader.Shader "shader.vs" "shader.fs" ;;
  Shader.setInt sh "u_name" 5 ;;
  ret sh.

(** [setInt] on a uniform declared [float], after [use]. *)
Definition set_float_uniform : M Shader.t :=
  sh <- Shader.Shader "shader.vs" "float.fs" ;;
  Shader.use sh ;;
  Shader.setInt sh "u_name" 5 ;;
  ret sh.

(** Two programs are built and the second one is made current. *)
Definition two_programs : M (Shader.t * Shader.t) :=
  a <- Shader.Shader "shader.vs" "shader.fs" ;;
  b <- Shader.Shader "shader.vs" "two.fs" ;;
  Shader.use b ;;
  ret (a, b).

(** The program with the two [int] uniforms is built and made current,
    and ["first"] is set to 7. *)
Definition two_uniforms : M Shader.t :=
  sh <- Shader.Shader "shader.vs" "two.fs" ;;
  Shader.use sh ;;
  Shader.setInt sh "first" 7 ;;
  ret sh.

(** The world left by building the program with a sampler and an
    array. *)
Definition textured : world :=
  (Shader.Shader "shader.vs" "texture.fs" start).2.

Definition texture_program : GL.program_obj :=
  {| GL.po_attached := [1%N; 2%N]; GL.po_link_status := true;
     GL.po_info_log := EmptyString;
     GL.po_uniforms :=
       [{| GL.u_name := "ourTexture"; GL.u_type := GL.GL_SAMPLER_2D;
           GL.u_value := GL.VInt 0 |};
        {| GL.u_name := "weight[0]"; GL.u_type := GL.GL_FLOAT;
           GL.u_value := GL.VFloat 0 |};
        {| GL.u_name := "weight[1]"; GL.u_type := GL.GL_FLOAT;
           GL.u_value := GL.VFloat 0 |}] |}.

(** The world left by building the pair with the broken vertex shader. *)
Definition broken_built : world :=
  (Shader.Shader "broken.vs" "shader.fs" start).2.

(** The disk with one more file: the good vertex source, a NUL and text
    that is no GLSL. *)
Definition disk_with_NUL : gmap string node :=
  <["nul.vs" := File (vertex_ok +:+ String zero "this is not GLSL")]> disk.

Definition start_with_NUL : world :=
  {| files := disk_with_NUL; open_streams := []; gl := GL.initial;
     cout := []; calls := [] |}.

End Demo.

(** What the [try] block and its handler leave: the two source strings,
    the text printed and the file calls made.  The vertex file is opened
    first; the first open that fails ends the block.  What is opened but
    cannot be read yields no bytes and no failure. *)
Definition read_phase (fs : gmap string node) (vertexPath fragmentPath : string)
  : string * string * list string * list event :=
  match fs !! vertexPath with
  | None =>
      (EmptyString, EmptyString, [Shader.file_diagnostic], [EvOpen vertexPath])
  | Some a =>
      match fs !! fragmentPath with
      | None =>
          (EmptyString, EmptyString, [Shader.file_diagnostic],
           [EvOpen vertexPath; EvOpen fragmentPath])
      | Some b =>
          (content_of a, content_of b, [],
           [EvOpen vertexPath; EvOpen fragmentPath; EvReadAll vertexPath;
            EvReadAll fragmentPath; EvClose vertexPath; EvClose fragmentPath])
      end
  end.

(** The file calls made when the two streams are destroyed: the vertex
    file is still open when the fragment file could not be opened. *)
Definition destructor_calls (fs : gmap string node) (vertexPath fragmentPath : string)
  : list event :=
  match fs !! vertexPath, fs !! fragmentPath with
  | Some _, None => [EvClose vertexPath]
  | _, _ => []
  end.

(** The streams that still have a file open after the [try] block. *)
Definition left_open (fs : gmap string node) (vertexPath fragmentPath : string)
  : list (ifstream * string) :=
  match fs !! vertexPath, fs !! fragmentPath with
  | Some _, None => [(vShaderFile, vertexPath)]
  | _, _ => []
  end.

(** The driver calls of the constructor, given the names it was handed
    and the three statuses it read back. *)
Definition build_calls (v f p : N) (vsrc fsrc : string) (okv okf okl : bool) : list event :=
  [EvCreateShader GL.GL_VERTEX_SHADER v; EvShaderSource v vsrc;
   EvCompileShader v; EvGetShaderiv v] ++
  (if okv then [] else [EvGetShaderInfoLog v]) ++
  [EvCreateShader GL.GL_FRAGMENT_SHADER f; EvShaderSource f fsrc;
   EvCompileShader f; EvGetShaderiv f] ++
  (if okf then [] else [EvGetShaderInfoLog f]) ++
  [EvCreateProgram p; EvAttachShader p v; EvAttachShader p f;
   EvLinkProgram p; EvGetProgramiv p] ++
  (if okl then [] else [EvGetProgramInfoLog p]) ++
  [EvDeleteShader v; EvDeleteShader f].

Definition is_file_event (e : event) : bool :=
  match e with
  | EvOpen _ | EvReadAll _ | EvClose _ => true
  | _ => false
  end.

(** The text the constructor prints after the read phase, given the
    three statuses and the three logs as cut by the 1024 byte buffer. *)
Definition build_output (okv : bool) (logv : string) (okf : bool) (logf : string)
           (okl : bool) (logl : string) : list string :=
  (if okv then [] else [Shader.compile_diagnostic "VERTEX" logv]) ++
  (if okf then [] else [Shader.compile_diagnostic "FRAGMENT" logf]) ++
  (if okl then [] else [Shader.link_diagnostic "PROGRAM" logl]).

(** ** Notions used by the further properties *)

(** No NUL character in a string. *)
Fixpoint NUL_free (s : string) : bool :=
  match s with
  | EmptyString => true
  | String c s' => negb (Ascii.eqb c zero) && NUL_free s'
  end.

(** Two program objects that differ at most in the values of their
    uniforms. *)
Definition same_program_shape (po po' : GL.program_obj) : Prop :=
  GL.po_attached po' = GL.po_attached po ∧
  GL.po_link_status po' = GL.po_link_status po ∧
  GL.po_info_log po' = GL.po_info_log po ∧
  GL.u_name <$> GL.po_uniforms po' = GL.u_name <$> GL.po_uniforms po ∧
  GL.u_type <$> GL.po_uniforms po' = GL.u_type <$> GL.po_uniforms po.

(** Two contexts with the same shader objects and the same programs up
    to uniform values. *)
Definition same_shape (c c' : GL.context) : Prop :=
  GL.shaders c' = GL.shaders c ∧
  ∀ p, match GL.programs c !! p, GL.programs c' !! p with
       | Some po, Some po' => same_program_shape po po'
       | None, None => True
       | _, _ => False
       end.

(** The value reported after a write: the one stored, or the old one
    when the write is rejected. *)
Definition value_after (r : GL.write_result) (old : GL.uniform_value)
  : GL.uniform_value :=
  match r with
  | GL.Accepted v => v
  | GL.Rejected _ => old
  end.

(** The error flag after a write, given the flag before. *)
Definition flag_after (r : GL.write_result) (flag : GL.error_code)
  : GL.error_code :=
  match r, flag with
  | GL.Rejected e, GL.GL_NO_ERROR => e
  | _, _ => flag
  end.

(** ** The shader program of [2_triangle.cpp] *)

(** [main] of [1_base/2_triangle.cpp] builds its program inline, from two
    string constants, with the same driver calls as the class but with
    its own texts and a buffer of 512 characters. *)
Module Triangle.

(** The two constants; each literal ends with an explicit NUL. *)
Definition vertexShaderSource : string :=
  "#version 330 core" +:+ nl +:+
  "layout (location = 0) in vec3 aPos;" +:+ nl +:+
  "void main()" +:+ nl +:+
  "{" +:+ nl +:+
  "   gl_Position = vec4(aPos.x, aPos.y, aPos.z, 1.0);" +:+ nl +:+
  "}" +:+ String zero EmptyString.

Definition fragmentShaderSource : string :=
  "#version 330 core" +:+ nl +:+
  "out vec4 FragColor;" +:+ nl +:+
  "void main()" +:+ nl +:+
  "{" +:+ nl +:+
  "   FragColor = vec4(1.0f, 0.5f, 0.2f, 1.0f);" +:+ nl +:+
  "}" +:+ nl +:+ String zero EmptyString.

Definition vertex_failed (infoLog : string) : string :=
  "ERROR::SHADER::VERTEX::COMPILATION_FAILED" +:+ nl +:+ infoLog +:+ nl.

Definition fragment_failed (infoLog : string) : string :=
  "ERROR::SHADER::FRAGMENT::COMPILATION_FAILED" +:+ nl +:+ infoLog +:+ nl.

Definition linking_failed (infoLog : string) : string :=
  "ERROR::SHADER::PROGRAM::LINKING_FAILED" +:+ nl +:+ infoLog +:+ nl.

Section WithDriver.
Context {D : GL.Driver}.

(** Lines 91 to 139 of [main], the two constants being parameters.  As
    in [Shader.checkCompileErrors], a status query on a name that is no
    object would leave [success] as it was; the names here are always
    objects. *)
Definition build_program (vertexSource fragmentSource : string) : M N :=
  vertexShader <- Call.glCreateShader GL.GL_VERTEX_SHADER ;;
  Call.glShaderSource vertexShader (c_str vertexSource) ;;
  Call.glCompileShader vertexShader ;;
  success <- Call.glGetShaderiv vertexShader ;;
  match success with
  | Some false =>
      infoLog <- Call.glGetShaderInfoLog vertexShader 512 ;;
      print (vertex_failed (default EmptyString infoLog))
  | _ => ret tt
  end ;;
  fragmentShader <- Call.glCreateShader GL.GL_FRAGMENT_SHADER ;;
  Call.glShaderSource fragmentShader (c_str fragmentSource) ;;
  Call.glCompileShader fragmentShader ;;
  success <- Call.glGetShaderiv fragmentShader ;;
  match success with
  | Some false =>
      infoLog <- Call.glGetShaderInfoLog fragmentShader 512 ;;
      print (fragment_failed (default EmptyString infoLog))
  | _ => ret tt
  end ;;
  shaderProgram <- Call.glCreateProgram ;;
  Call.glAttachShader shaderProgram vertexShader ;;
  Call.glAttachShader shaderProgram fragmentShader ;;
  Call.glLinkProgram shaderProgram ;;
  success <- Call.glGetProgramiv shaderProgram ;;
  match success with
  | Some false =>
      infoLog <- Call.glGetProgramInfoLog shaderProgram 512 ;;
      print (linking_failed (default EmptyString infoLog))
  | _ => ret tt
  end ;;
  Call.glDeleteShader vertexShader ;;
  Call.glDeleteShader fragmentShader ;;
  ret shaderProgram.

(** The program that [main] draws with. *)
Definition shader_program : M N :=
  build_program vertexShaderSource fragmentShaderSource.

End WithDriver.

(** The text printed by [build_program], given the three statuses and
    the three logs as cut by the buffer. *)
Definition output (okv : bool) (logv : string) (okf : bool) (logf : string)
           (okl : bool) (logl : string) : list string :=
  (if okv then [] else [vertex_failed logv]) ++
  (if okf then [] else [fragment_failed logf]) ++
  (if okl then [] else [linking_failed logl]).

End Triangle.

(** ** The window program of [1_window.cpp] *)

(** GLFW and the loader are not part of the repository.  What the
    program can observe of them is: whether the window could be created,
    whether the OpenGL entry points could be loaded, the close flag of
    the window, and the state of the escape key as the last processed
    events left it.  [glfwPollEvents] processes the events that arrived
    since the previous poll: it updates the key state, sets the close
    flag on a close request and runs the framebuffer size callback on a
    resize. *)
Module GLFW.

(** What arrives between two polls. *)
Record events := {
  escape_down : bool;
  close_requested : bool;
  resized : option (Z * Z)
}.

Record platform := {
  apple : bool;
  window_created : bool;
  glad_loaded : bool;
  arriving : nat → events
}.

Inductive hint :=
| GLFW_CONTEXT_VERSION_MAJOR
| GLFW_CONTEXT_VERSION_MINOR
| GLFW_OPENGL_PROFILE
| GLFW_OPENGL_FORWARD_COMPAT.

Inductive hint_value :=
| Version (n : Z)
| GLFW_OPENGL_CORE_PROFILE
| GL_TRUE.

Inductive call :=
| Init
| WindowHint (h : hint) (v : hint_value)
| CreateWindow (width height : Z) (title : string)
| Terminate
| MakeContextCurrent
| SetFramebufferSizeCallback
| LoadGLLoader
| WindowShouldClose
| GetKeyEscape
| SetWindowShouldClose (value : bool)
| ClearColor (r g b a : Z)
| Clear
| SwapBuffers
| PollEvents
| Viewport (x y width height : Z).

(** [viewport] is [None] until the program sets it; [polls] counts the
    calls of [glfwPollEvents]; [escape] is the key state reported by
    [glfwGetKey], released until an event says otherwise. *)
Record desk := {
  terminated : bool;
  should_close : bool;
  escape : bool;
  callback_set : bool;
  polls : nat;
  viewport : option (Z * Z * Z * Z);
  printed : list string;
  made : list call
}.

Definition fresh_desk : desk :=
  {| terminated := false; should_close := false; escape := false;
     callback_set := false; polls := 0; viewport := None;
     printed := []; made := [] |}.

End GLFW.

Module Window.
Import GLFW.

Definition W (A : Type) : Type := desk → A * desk.

Definition wret {A} (a : A) : W A := λ d, (a, d).

Definition wbind {A B} (c : W A) (k : A → W B) : W B :=
  λ d, let (a, d') := c d in k a d'.

Notation "x <~ c ;;; k" := (wbind c (λ x, k))
  (at level 100, c at next level, right associativity).
Notation "c ;;; k" := (wbind c (λ _, k))
  (at level 100, right associativity).

Definition made_call (c : call) : W unit :=
  λ d, (tt, {| terminated := terminated d; should_close := should_close d;
               escape := escape d; callback_set := callback_set d;
               polls := polls d; viewport := viewport d;
               printed := printed d; made := made d ++ [c] |}).

Definition wprint (s : string) : W unit :=
  λ d, (tt, {| terminated := terminated d; should_close := should_close d;
               escape := escape d; callback_set := callback_set d;
               polls := polls d; viewport := viewport d;
               printed := printed d ++ [s]; made := made d |}).

Definition SCR_WIDTH : Z := 800.
Definition SCR_HEIGHT : Z := 600.

(** The bit patterns of 0.2f, 0.3f and 1.0f. *)
Definition f0_2 : Z := 1045220557.
Definition f0_3 : Z := 1050253722.
Definition f1_0 : Z := 1065353216.

Definition glfwInit : W unit := made_call Init.

Definition glfwWindowHint (h : hint) (v : hint_value) : W unit :=
  made_call (WindowHint h v).

Definition glfwTerminate : W unit :=
  made_call Terminate ;;;
  λ d, (tt, {| terminated := true; should_close := should_close d;
               escape := escape d; callback_set := callback_set d;
               polls := polls d; viewport := viewport d;
               printed := printed d; made := made d |}).

Definition glfwMakeContextCurrent : W unit := made_call MakeContextCurrent.

Definition glfwSetFramebufferSizeCallback : W unit :=
  made_call SetFramebufferSizeCallback ;;;
  λ d, (tt, {| terminated := terminated d; should_close := should_close d;
               escape := escape d; callback_set := true;
               polls := polls d; viewport := viewport d;
               printed := printed d; made := made d |}).

Definition glfwWindowShouldClose : W bool :=
  made_call WindowShouldClose ;;; λ d, (should_close d, d).

(** [glfwGetKey(window, GLFW_KEY_ESCAPE) == GLFW_PRESS] *)
Definition glfwGetKey_escape_pressed : W bool :=
  made_call GetKeyEscape ;;; λ d, (escape d, d).

Definition glfwSetWindowShouldClose (value : bool) : W unit :=
  made_call (SetWindowShouldClose value) ;;;
  λ d, (tt, {| terminated := terminated d; should_close := value;
               escape := escape d; callback_set := callback_set d;
               polls := polls d; viewport := viewport d;
               printed := printed d; made := made d |}).

Definition glClearColor (r g b a : Z) : W unit := made_call (ClearColor r g b a).

Definition glClear : W unit := made_call Clear.

Definition glfwSwapBuffers : W unit := made_call SwapBuffers.

Definition glViewport (x y width height : Z) : W unit :=
  made_call (Viewport x y width height) ;;;
  λ d, (tt, {| terminated := terminated d; should_close := should_close d;
               escape := escape d; callback_set := callback_set d;
               polls := polls d; viewport := Some (x, y, width, height);
               printed := printed d; made := made d |}).

(** [framebuffer_size_callback(window, width, height)] *)
Definition framebuffer_size_callback (width height : Z) : W unit :=
  glViewport 0 0 width height.

(** [processInput(window)] *)
Definition processInput : W unit :=
  pressed <~ glfwGetKey_escape_pressed ;;;
  if pressed then glfwSetWindowShouldClose true else wret tt.

Section OnPlatform.
Variable P : platform.

Definition glfwCreateWindow (width height : Z) (title : string) : W bool :=
  made_call (CreateWindow width height title) ;;; wret (window_created P).

Definition gladLoadGLLoader : W bool :=
  made_call LoadGLLoader ;;; wret (glad_loaded P).

Definition glfwPollEvents : W unit :=
  made_call PollEvents ;;;
  λ d,
    let e := arriving P (polls d) in
    let d' := {| terminated := terminated d;
                 should_close := should_close d || close_requested e;
                 escape := escape_down e; callback_set := callback_set d;
                 polls := S (polls d); viewport := viewport d;
                 printed := printed d; made := made d |} in
    match resized e with
    | Some (width, height) =>
        if callback_set d then framebuffer_size_callback width height d'
        else (tt, d')
    | None => (tt, d')
    end.

(** The body of the render loop. *)
Definition frame : W unit :=
  processInput ;;;
  glClearColor f0_2 f0_3 f0_3 f1_0 ;;;
  glClear ;;;
  glfwSwapBuffers ;;;
  glfwPollEvents.

(** [while (!glfwWindowShouldClose(window)) { ... }], run for at most
    [fuel] tests of the condition; the result tells whether the loop was
    left. *)
Fixpoint render_loop (fuel : nat) : W bool :=
  match fuel with
  | 0 => wret false
  | S fuel' =>
      close <~ glfwWindowShouldClose ;;;
      if close then wret true else frame ;;; render_loop fuel'
  end.

(** [main]; [None] when the render loop is still running after [fuel]
    tests of its condition. *)
Definition main (fuel : nat) : W (option Z) :=
  glfwInit ;;;
  glfwWindowHint GLFW_CONTEXT_VERSION_MAJOR (Version 4) ;;;
  glfwWindowHint GLFW_CONTEXT_VERSION_MINOR (Version 1) ;;;
  glfwWindowHint GLFW_OPENGL_PROFILE GLFW_OPENGL_CORE_PROFILE ;;;
  (if apple P then glfwWindowHint GLFW_OPENGL_FORWARD_COMPAT GL_TRUE
   else wret tt) ;;;
  window <~ glfwCreateWindow SCR_WIDTH SCR_HEIGHT "LearnOpenGL" ;;;
  if negb window then
    wprint ("Failed to create GLFW window" +:+ nl) ;;;
    glfwTerminate ;;;
    wret (Some (-1)%Z)
  else
    glfwMakeContextCurrent ;;;
    glfwSetFramebufferSizeCallback ;;;
    loaded <~ gladLoadGLLoader ;;;
    if negb loaded then
      wprint ("Failed to initialize GLAD" +:+ nl) ;;;
      wret (Some (-1)%Z)
    else
      left_loop <~ render_loop fuel ;;;
      if left_loop then glfwTerminate ;;; wret (Some 0%Z) else wret None.

End OnPlatform.

(** Nothing that ends the loop arrives: no escape key, no close
    request. *)
Definition quiet (e : events) : bool :=
  negb (escape_down e) && negb (close_requested e).

(** The desk before a test of the loop condition, as long as nothing
    has asked for the end of the loop. *)
Definition running (d : desk) : Prop :=
  should_close d = false ∧ escape d = false ∧ callback_set d = true.

(** The viewport that the resizes among the first [n] polls leave:
    that of the last one, if any. *)
Fixpoint last_resize (P : platform) (n : nat) : option (Z * Z * Z * Z) :=
  match n with
  | 0 => None
  | S n' =>
      match resized (arriving P n') with
      | Some (width, height) => Some (0, 0, width, height)%Z
      | None => last_resize P n'
      end
  end.

(** The frames shown so far. *)
Definition frames_shown (d : desk) : nat :=
  List.length
    (List.filter (λ c, match c with SwapBuffers => true | _ => false end)
                 (made d)).

(** A platform for concrete runs: the escape key goes down with poll 2,
    the window is resized with poll 1, and the close button is never
    used. *)
Definition demo_platform : platform :=
  {| apple := true; window_created := true; glad_loaded := true;
     arriving := λ n,
       {| escape_down := (n =? 2)%nat; close_requested := false;
          resized := if (n =? 1)%nat then Some (1024, 768)%Z else None |} |}.

End Window.

(** * Properties *)

(** ** The object model *)

Section GLFacts.
Context {D : GL.Driver}.
Import GL.

Lemma fresh_name_unused (c : context) :
  shaders c !! fresh_name c = None ∧
  programs c !! fresh_name c = None ∧
  fresh_name c ≠ 0%N.
Proof.
  pose proof (is_fresh (names c)) as Hf.
  fold (fresh_name c) in Hf. unfold names in Hf.
  repeat split.
  - apply not_elem_of_dom. set_solver.
  - apply not_elem_of_dom. set_solver.
  - set_solver.
Qed.

Lemma names_set_shader s so c :
  names (set_shader s so c) = {[ s ]} ∪ names c.
Proof.
  unfold names, set_shader; cbn. rewrite dom_insert_L. set_solver.
Qed.

Lemma names_set_program p po c :
  names (set_program p po c) = {[ p ]} ∪ names c.
Proof.
  unfold names, set_program; cbn. rewrite dom_insert_L. set_solver.
Qed.

Lemma set_shader_twice s o o' c :
  set_shader s o' (set_shader s o c) = set_shader s o' c.
Proof. unfold set_shader; cbn. by rewrite insert_insert_eq. Qed.

Lemma set_program_twice p o o' c :
  set_program p o' (set_program p o c) = set_program p o' c.
Proof. unfold set_program; cbn. by rewrite insert_insert_eq. Qed.

Lemma glShaderSource_set s src o c :
  glShaderSource s src (set_shader s o c) =
  set_shader s {| so_type := so_type o; so_source := src;
                  so_compile_status := so_compile_status o;
                  so_info_log := so_info_log o;
                  so_delete_status := so_delete_status o |} c.
Proof.
  unfold glShaderSource. cbn. rewrite lookup_insert_eq.
  apply set_shader_twice.
Qed.

Lemma glCompileShader_set s o c :
  glCompileShader s (set_shader s o c) =
  set_shader s {| so_type := so_type o; so_source := so_source o;
                  so_compile_status := (glsl_compile (so_type o) (so_source o)).1;
                  so_info_log := (glsl_compile (so_type o) (so_source o)).2;
                  so_delete_status := so_delete_status o |} c.
Proof.
  unfold glCompileShader. cbn. rewrite lookup_insert_eq.
  apply set_shader_twice.
Qed.

Lemma glGetShaderiv_set s o c :
  glGetShaderiv s (set_shader s o c) = Some (so_compile_status o).
Proof. unfold glGetShaderiv. cbn. by rewrite lookup_insert_eq. Qed.

Lemma glGetShaderInfoLog_set s n o c :
  glGetShaderInfoLog s n (set_shader s o c) =
  Some (substring 0 (n - 1) (so_info_log o)).
Proof. unfold glGetShaderInfoLog. cbn. by rewrite lookup_insert_eq. Qed.

Lemma glGetProgramiv_set p o c :
  glGetProgramiv p (set_program p o c) = Some (po_link_status o).
Proof. unfold glGetProgramiv. cbn. by rewrite lookup_insert_eq. Qed.

Lemma glGetProgramInfoLog_set p n o c :
  glGetProgramInfoLog p n (set_program p o c) =
  Some (substring 0 (n - 1) (po_info_log o)).
Proof. unfold glGetProgramInfoLog. cbn. by rewrite lookup_insert_eq. Qed.

Lemma glAttachShader_set p s o c :
  is_Some (shaders c !! s) →
  s ∉ po_attached o →
  glAttachShader p s (set_program p o c) =
  set_program p {| po_attached := po_attached o ++ [s];
                   po_link_status := po_link_status o;
                   po_info_log := po_info_log o;
                   po_uniforms := po_uniforms o |} c.
Proof.
  intros [so Hs] Hn. unfold glAttachShader. cbn.
  rewrite lookup_insert_eq, Hs.
  rewrite bool_decide_eq_false_2 by done.
  apply set_program_twice.
Qed.

(** Linking a program whose attached shaders are [v] and [f]. *)
Lemma glLinkProgram_set p v f sov sof o c :
  shaders c !! v = Some sov →
  shaders c !! f = Some sof →
  po_attached o = [v; f] →
  glLinkProgram p (set_program p o c) =
  set_program p
    (if so_compile_status sov && so_compile_status sof then
       let r := glsl_link [(so_type sov, so_source sov); (so_type sof, so_source sof)] in
       {| po_attached := [v; f]; po_link_status := r.1.1;
          po_info_log := r.1.2;
          po_uniforms := if r.1.1 then map fresh_uniform r.2 else [] |}
     else
       {| po_attached := [v; f]; po_link_status := false;
          po_info_log := uncompiled_link_log; po_uniforms := [] |}) c.
Proof.
  intros Hv Hf Ha. unfold glLinkProgram. cbn.
  rewrite lookup_insert_eq, Ha. cbn. rewrite Hv, Hf. cbn.
  rewrite andb_true_r.
  destruct (so_compile_status sov && so_compile_status sof);
    cbn; apply set_program_twice.
Qed.

Lemma shader_query_set s o c :
  shader_query s (set_shader s o c) = set_shader s o c.
Proof. unfold shader_query. cbn. by rewrite lookup_insert_eq. Qed.

Lemma program_query_set p o c :
  program_query false p (set_program p o c) = set_program p o c.
Proof. unfold program_query. cbn. by rewrite lookup_insert_eq. Qed.

(** *** The error flag *)

Lemma record_error_objects e c :
  shaders (record_error e c) = shaders c ∧
  programs (record_error e c) = programs c ∧
  current_program (record_error e c) = current_program c.
Proof. unfold record_error. by destruct (error_flag c). Qed.

Lemma record_error_flag e c :
  error_flag (record_error e c) =
  match error_flag c with GL_NO_ERROR => e | flag => flag end.
Proof. unfold record_error. by destruct (error_flag c) eqn:E. Qed.

(** Once the flag holds a code, a rejected call changes nothing. *)
Lemma record_error_kept e c :
  error_flag c ≠ GL_NO_ERROR → record_error e c = c.
Proof. unfold record_error. by destruct (error_flag c). Qed.

Lemma record_error_twice e e' c :
  e ≠ GL_NO_ERROR → record_error e' (record_error e c) = record_error e c.
Proof.
  intros He. apply record_error_kept. rewrite record_error_flag.
  by destruct (error_flag c).
Qed.

Lemma is_attached_intro s p po c :
  programs c !! p = Some po → s ∈ po_attached po → is_attached s c = true.
Proof.
  intros Hp Hs. unfold is_attached. apply existsb_exists.
  exists (p, po). split.
  - apply list_elem_of_In, elem_of_map_to_list. exact Hp.
  - cbn. by apply bool_decide_eq_true_2.
Qed.

Lemma glDeleteShader_attached s so p po c :
  shaders c !! s = Some so →
  programs c !! p = Some po → s ∈ po_attached po →
  glDeleteShader s c =
  set_shader s {| so_type := so_type so; so_source := so_source so;
                  so_compile_status := so_compile_status so;
                  so_info_log := so_info_log so;
                  so_delete_status := true |} c.
Proof.
  intros Hs Hp Hin. unfold glDeleteShader.
  by rewrite Hs, (is_attached_intro s p po c Hp Hin).
Qed.

End GLFacts.

(** ** Running the member functions *)

Section Run.
Context {D : GL.Driver}.
Import GL.

Lemma bind_Ok {A B} (c : M A) (k : A → M B) w a w' :
  c w = (Ok a, w') → bind c k w = k a w'.
Proof. intros H. unfold bind. by rewrite H. Qed.

Lemma checkCompileErrors_shader_run s type o c fs os out ev :
  String.eqb type "PROGRAM" = false →
  Shader.checkCompileErrors s type
    {| files := fs; open_streams := os; gl := set_shader s o c;
       cout := out; calls := ev |} =
  (Ok tt,
   {| files := fs; open_streams := os; gl := set_shader s o c;
      cout := out ++
        (if so_compile_status o then []
         else [Shader.compile_diagnostic type
                 (substring 0 1023 (so_info_log o))]);
      calls := ev ++ EvGetShaderiv s ::
        (if so_compile_status o then [] else [EvGetShaderInfoLog s]) |}).
Proof.
  intros Ht. unfold Shader.checkCompileErrors. rewrite Ht. cbn [negb].
  unfold Call.glGetShaderiv, Call.glGetShaderInfoLog, bind, log, gl_query,
    gl_update, print, ret.
  cbn [files open_streams gl cout calls].
  rewrite glGetShaderiv_set, shader_query_set.
  destruct (so_compile_status o).
  - by rewrite app_nil_r.
  - cbn [files open_streams gl cout calls].
    rewrite glGetShaderInfoLog_set, shader_query_set. cbn [default].
    by rewrite <- app_assoc.
Qed.

Lemma checkCompileErrors_program_run p o c fs os out ev :
  Shader.checkCompileErrors p "PROGRAM"
    {| files := fs; open_streams := os; gl := set_program p o c;
       cout := out; calls := ev |} =
  (Ok tt,
   {| files := fs; open_streams := os; gl := set_program p o c;
      cout := out ++
        (if po_link_status o then []
         else [Shader.link_diagnostic "PROGRAM"
                 (substring 0 1023 (po_info_log o))]);
      calls := ev ++ EvGetProgramiv p ::
        (if po_link_status o then [] else [EvGetProgramInfoLog p]) |}).
Proof.
  unfold Shader.checkCompileErrors.
  change (negb ("PROGRAM" =? "PROGRAM")) with false. cbv iota.
  unfold Call.glGetProgramiv, Call.glGetProgramInfoLog, bind, log, gl_query,
    gl_update, print, ret.
  cbn [files open_streams gl cout calls].
  rewrite glGetProgramiv_set, program_query_set.
  destruct (po_link_status o).
  - by rewrite app_nil_r.
  - cbn [files open_streams gl cout calls].
    rewrite glGetProgramInfoLog_set, program_query_set. cbn [default].
    by rewrite <- app_assoc.
Qed.


Lemma glCreateShader_run t w :
  Call.glCreateShader t w =
  (Ok (fresh_name (gl w)),
   {| files := files w; open_streams := open_streams w;
      gl := set_shader (fresh_name (gl w))
              {| so_type := t; so_source := EmptyString;
                 so_compile_status := false; so_info_log := EmptyString;
                 so_delete_status := false |} (gl w);
      cout := cout w;
      calls := calls w ++ [EvCreateShader t (fresh_name (gl w))] |}).
Proof. reflexivity. Qed.

Lemma glCreateProgram_run w :
  Call.glCreateProgram w =
  (Ok (fresh_name (gl w)),
   {| files := files w; open_streams := open_streams w;
      gl := set_program (fresh_name (gl w))
              {| po_attached := []; po_link_status := false;
                 po_info_log := EmptyString; po_uniforms := [] |} (gl w);
      cout := cout w;
      calls := calls w ++ [EvCreateProgram (fresh_name (gl w))] |}).
Proof. reflexivity. Qed.

Lemma gl_update_run e f w :
  (log e ;; gl_update f) w =
  (Ok tt, {| files := files w; open_streams := open_streams w;
             gl := f (gl w); cout := cout w; calls := calls w ++ [e] |}).
Proof. reflexivity. Qed.

Lemma linked_attached v f vsrc fsrc :
  po_attached (linked v f vsrc fsrc) = [v; f].
Proof. unfold linked. by destruct (_ && _). Qed.

Ltac step lem :=
  erewrite bind_Ok; [ | apply lem ]; cbn beta;
  cbn [files open_streams gl cout calls].

Lemma compile_and_link_run vertexCode fragmentCode w :
  let vsrc := c_str vertexCode in
  let fsrc := c_str fragmentCode in
  let v := fresh (names (gl w)) in
  let f := fresh ({[ v ]} ∪ names (gl w)) in
  let p := fresh ({[ f ]} ∪ ({[ v ]} ∪ names (gl w))) in
  let sv := compiled GL_VERTEX_SHADER vsrc in
  let sf := compiled GL_FRAGMENT_SHADER fsrc in
  let po := linked v f vsrc fsrc in
  Shader.compile_and_link vertexCode fragmentCode w =
  (Ok {| Shader.ID := p |},
   {| files := files w; open_streams := open_streams w;
      gl := {| shaders := <[f := sf true]> (<[v := sv true]> (shaders (gl w)));
               programs := <[p := po]> (programs (gl w));
               current_program := current_program (gl w);
               error_flag := error_flag (gl w) |};
      cout := cout w ++
        (if so_compile_status (sv false) then []
         else [Shader.compile_diagnostic "VERTEX"
                 (substring 0 1023 (so_info_log (sv false)))]) ++
        (if so_compile_status (sf false) then []
         else [Shader.compile_diagnostic "FRAGMENT"
                 (substring 0 1023 (so_info_log (sf false)))]) ++
        (if po_link_status po then []
         else [Shader.link_diagnostic "PROGRAM"
                 (substring 0 1023 (po_info_log po))]);
      calls := calls w ++
        [EvCreateShader GL_VERTEX_SHADER v; EvShaderSource v vsrc;
         EvCompileShader v; EvGetShaderiv v] ++
        (if so_compile_status (sv false) then [] else [EvGetShaderInfoLog v]) ++
        [EvCreateShader GL_FRAGMENT_SHADER f; EvShaderSource f fsrc;
         EvCompileShader f; EvGetShaderiv f] ++
        (if so_compile_status (sf false) then [] else [EvGetShaderInfoLog f]) ++
        [EvCreateProgram p; EvAttachShader p v; EvAttachShader p f;
         EvLinkProgram p; EvGetProgramiv p] ++
        (if po_link_status po then [] else [EvGetProgramInfoLog p]) ++
        [EvDeleteShader v; EvDeleteShader f] |}).
Proof.
  intros vsrc fsrc v f p sv sf po.
  destruct w as [fs os c0 out ev]. cbn [gl files open_streams cout calls] in *.
  destruct (fresh_name_unused c0) as (Hv_s & Hv_p & Hv_0).
  fold v in Hv_s, Hv_p, Hv_0. change (fresh_name c0) with v in *.
  unfold Shader.compile_and_link.
  step glCreateShader_run. change (fresh_name c0) with v.
  unfold Call.glShaderSource. step gl_update_run.
  rewrite glShaderSource_set. cbn [so_type so_source so_compile_status so_info_log so_delete_status].
  unfold Call.glCompileShader. step gl_update_run.
  rewrite glCompileShader_set. cbn [so_type so_source so_compile_status so_info_log so_delete_status].
  fold vsrc. change (set_shader v _ c0) with (set_shader v (sv false) c0).
  step checkCompileErrors_shader_run; [ | reflexivity ].
  set (out1 := (out ++ _)%list). set (ev1 := (_ ++ EvGetShaderiv v :: _)%list).
  (* fragment shader *)
  pose proof (is_fresh ({[ v ]} ∪ names c0)) as Hf. fold f in Hf.
  assert (Hfv : f ≠ v) by set_solver.
  assert (Hf_s : shaders c0 !! f = None)
    by (apply not_elem_of_dom; unfold names in Hf; set_solver).
  step glCreateShader_run.
  unfold fresh_name. rewrite names_set_shader. fold f.
  unfold Call.glShaderSource. step gl_update_run.
  rewrite glShaderSource_set. cbn [so_type so_source so_compile_status so_info_log so_delete_status].
  unfold Call.glCompileShader. step gl_update_run.
  rewrite glCompileShader_set. cbn [so_type so_source so_compile_status so_info_log so_delete_status].
  fold fsrc. change (set_shader f _ (set_shader v _ c0))
    with (set_shader f (sf false) (set_shader v (sv false) c0)).
  step checkCompileErrors_shader_run; [ | reflexivity ].
  set (out2 := (out1 ++ _)%list). set (ev2 := (_ ++ EvGetShaderiv f :: _)%list).
  remember (set_shader f (sf false) (set_shader v (sv false) c0)) as c2 eqn:Hc2.
  (* program *)
  assert (Hv2 : shaders c2 !! v = Some (sv false)).
  { rewrite Hc2. unfold set_shader; cbn. by rewrite lookup_insert_ne, lookup_insert_eq. }
  assert (Hf2 : shaders c2 !! f = Some (sf false)).
  { rewrite Hc2. unfold set_shader; cbn. by rewrite lookup_insert_eq. }
  step glCreateProgram_run.
  assert (Hp : fresh_name c2 = p)
    by (rewrite Hc2; unfold fresh_name; by rewrite !names_set_shader).
  rewrite Hp.
  unfold Call.glAttachShader. step gl_update_run.
  rewrite (glAttachShader_set p v _ c2); [ | eexists; exact Hv2 | cbn; set_solver ].
  cbn [po_attached po_link_status po_info_log po_uniforms app].
  step gl_update_run.
  rewrite (glAttachShader_set p f _ c2); [ | eexists; exact Hf2 | cbn; set_solver ].
  cbn [po_attached po_link_status po_info_log po_uniforms app].
  unfold Call.glLinkProgram. step gl_update_run.
  rewrite (glLinkProgram_set p v f (sv false) (sf false)) by done.
  change (set_program p _ c2) with (set_program p po c2).
  step checkCompileErrors_program_run.
  set (out3 := (out2 ++ _)%list). set (ev3 := (_ ++ EvGetProgramiv p :: _)%list).
  (* deletion *)
  assert (Hp3 : programs (set_program p po c2) !! p = Some po)
    by (unfold set_program; cbn; by rewrite lookup_insert_eq).
  assert (Hatt : po_attached po = [v; f]) by apply linked_attached.
  unfold Call.glDeleteShader. step gl_update_run.
  rewrite (glDeleteShader_attached v (sv false) p po);
    [ | exact Hv2 | exact Hp3 | rewrite Hatt; set_solver ].
  step gl_update_run.
  rewrite (glDeleteShader_attached f (sf false) p po);
    [ | by (unfold set_shader; cbn; rewrite lookup_insert_ne by done)
      | exact Hp3 | rewrite Hatt; set_solver ].
  unfold ret. f_equal.
  subst c2 out3 out2 out1 ev3 ev2 ev1.
  f_equal.
  - unfold set_shader, set_program; cbn. f_equal.
    apply map_eq. intros i. rewrite !lookup_insert.
    repeat case_decide; try congruence; reflexivity.
  - by rewrite <- !app_assoc.
  - rewrite <- !app_assoc. cbn [app]. reflexivity.
Qed.

(** Two new streams: no stream of the constructor has a file open. *)
Lemma streams_new (l : list (ifstream * string)) :
  without fShaderFile (without vShaderFile l) = [].
Proof.
  unfold without. induction l as [|[[] path] l IH]; cbn; [done | exact IH | exact IH].
Qed.

Lemma read_sources_run vertexPath fragmentPath fs c out ev :
  try_catch (Shader.read_sources vertexPath fragmentPath)
    (print Shader.file_diagnostic ;; ret (EmptyString, EmptyString))
    {| files := fs; open_streams := []; gl := c; cout := out; calls := ev |} =
  (Ok ((read_phase fs vertexPath fragmentPath).1.1.1,
       (read_phase fs vertexPath fragmentPath).1.1.2),
   {| files := fs;
      open_streams := left_open fs vertexPath fragmentPath;
      gl := c;
      cout := out ++ (read_phase fs vertexPath fragmentPath).1.2;
      calls := ev ++ (read_phase fs vertexPath fragmentPath).2 |}).
Proof.
  unfold try_catch, Shader.read_sources, read_phase, left_open, ifstream_open,
    read_rdbuf, ifstream_close, set_streams, bind, log, print, ret, raise.
  cbn [files open_streams gl cout calls path_of List.find fmap option_fmap option_map].
  destruct (fs !! vertexPath) as [a|] eqn:Ha;
    cbn [files open_streams gl cout calls path_of List.find ifstream_eqb fst snd
         fmap option_fmap option_map].
  - destruct (fs !! fragmentPath) as [b|] eqn:Hb;
      cbn [files open_streams gl cout calls path_of List.find ifstream_eqb fst snd
           fmap option_fmap option_map without List.filter negb].
    + rewrite ?Ha, ?Hb. cbn [fmap option_fmap option_map default].
      rewrite app_nil_r, <- !app_assoc. reflexivity.
    + rewrite <- !app_assoc. reflexivity.
  - reflexivity.
Qed.

Lemma destructors_run fs vertexPath fragmentPath (self : Shader.t) c out ev :
  (ifstream_destroy fShaderFile ;; ifstream_destroy vShaderFile ;; ret self)
    {| files := fs; open_streams := left_open fs vertexPath fragmentPath;
       gl := c; cout := out; calls := ev |} =
  (Ok self,
   {| files := fs; open_streams := []; gl := c; cout := out;
      calls := ev ++ destructor_calls fs vertexPath fragmentPath |}).
Proof.
  unfold left_open, destructor_calls, ifstream_destroy, set_streams, bind, log, ret.
  destruct (fs !! vertexPath), (fs !! fragmentPath); cbn;
    rewrite ?app_nil_r; reflexivity.
Qed.

(** The whole constructor in closed form. *)
Lemma Shader_built vertexPath fragmentPath w :
  let r := read_phase (files w) vertexPath fragmentPath in
  let vsrc := c_str r.1.1.1 in
  let fsrc := c_str r.1.1.2 in
  let v := fresh (names (gl w)) in
  let f := fresh ({[ v ]} ∪ names (gl w)) in
  let p := fresh ({[ f ]} ∪ ({[ v ]} ∪ names (gl w))) in
  let sv := compiled GL_VERTEX_SHADER vsrc true in
  let sf := compiled GL_FRAGMENT_SHADER fsrc true in
  let po := linked v f vsrc fsrc in
  Shader.Shader vertexPath fragmentPath w =
  (Ok {| Shader.ID := p |},
   {| files := files w;
      open_streams := [];
      gl := {| shaders := <[f := sf]> (<[v := sv]> (shaders (gl w)));
               programs := <[p := po]> (programs (gl w));
               current_program := current_program (gl w);
               error_flag := error_flag (gl w) |};
      cout := cout w ++ r.1.2 ++
              build_output (so_compile_status sv) (substring 0 1023 (so_info_log sv))
                           (so_compile_status sf) (substring 0 1023 (so_info_log sf))
                           (po_link_status po) (substring 0 1023 (po_info_log po));
      calls := calls w ++ r.2 ++
               build_calls v f p vsrc fsrc (so_compile_status sv)
                           (so_compile_status sf) (po_link_status po) ++
               destructor_calls (files w) vertexPath fragmentPath |}).
Proof.
  intros r vsrc fsrc v f p sv sf po.
  unfold Shader.Shader, ifstream_new, set_streams.
  unfold bind at 1. cbn [files open_streams gl cout calls].
  unfold bind at 1. cbn [files open_streams gl cout calls].
  rewrite streams_new.
  erewrite bind_Ok by apply read_sources_run. cbn beta.
  erewrite bind_Ok by apply compile_and_link_run. cbn beta.
  cbn [files open_streams gl cout calls].
  rewrite destructors_run.
  fold r vsrc fsrc v f p po.
  unfold build_output, build_calls.
  rewrite <- !app_assoc. reflexivity.
Qed.

End Run.

(** ** Recognising the printed text *)

Section Diagnostics.

Lemma prefix_append (a s : string) : String.prefix a (a +:+ s) = true.
Proof.
  induction a as [|c a IH].
  - by destruct s.
  - change (match ascii_dec c c with
            | left _ => String.prefix a (a +:+ s)
            | right _ => false
            end = true).
    destruct (ascii_dec c c); [exact IH | done].
Qed.

Lemma file_is_file : is_file_diagnostic Shader.file_diagnostic = true.
Proof. reflexivity. Qed.

Lemma compile_not_file type x :
  is_file_diagnostic (Shader.compile_diagnostic type x) = false.
Proof. reflexivity. Qed.

Lemma link_not_file type x :
  is_file_diagnostic (Shader.link_diagnostic type x) = false.
Proof. reflexivity. Qed.

Lemma file_not_compile type : is_compile_diagnostic type Shader.file_diagnostic = false.
Proof. reflexivity. Qed.

Lemma file_not_any_compile : is_any_compile_diagnostic Shader.file_diagnostic = false.
Proof. reflexivity. Qed.

Lemma file_not_link : is_link_diagnostic Shader.file_diagnostic = false.
Proof. reflexivity. Qed.

Lemma compile_is_any_compile type x :
  is_any_compile_diagnostic (Shader.compile_diagnostic type x) = true.
Proof. apply prefix_append. Qed.

Lemma link_not_any_compile type x :
  is_any_compile_diagnostic (Shader.link_diagnostic type x) = false.
Proof. reflexivity. Qed.

Lemma link_not_compile type type' x :
  is_compile_diagnostic type (Shader.link_diagnostic type' x) = false.
Proof. reflexivity. Qed.

Lemma compile_not_link type x :
  is_link_diagnostic (Shader.compile_diagnostic type x) = false.
Proof. reflexivity. Qed.

Lemma link_is_link type x :
  is_link_diagnostic (Shader.link_diagnostic type x) = true.
Proof. apply prefix_append. Qed.

Lemma vertex_is_vertex x :
  is_compile_diagnostic "VERTEX" (Shader.compile_diagnostic "VERTEX" x) = true.
Proof.
  exact (prefix_append
           ("ERROR::SHADER_COMPILATION_ERROR of type: " +:+ "VERTEX" +:+ nl)
           (x +:+ nl +:+ Shader.rule +:+ nl)).
Qed.

Lemma fragment_is_fragment x :
  is_compile_diagnostic "FRAGMENT" (Shader.compile_diagnostic "FRAGMENT" x) = true.
Proof.
  exact (prefix_append
           ("ERROR::SHADER_COMPILATION_ERROR of type: " +:+ "FRAGMENT" +:+ nl)
           (x +:+ nl +:+ Shader.rule +:+ nl)).
Qed.

Lemma vertex_not_fragment x :
  is_compile_diagnostic "FRAGMENT" (Shader.compile_diagnostic "VERTEX" x) = false.
Proof. reflexivity. Qed.

Lemma fragment_not_vertex x :
  is_compile_diagnostic "VERTEX" (Shader.compile_diagnostic "FRAGMENT" x) = false.
Proof. reflexivity. Qed.

End Diagnostics.

Create Rewrite HintDb diag.
#[export] Hint Rewrite file_is_file compile_not_file link_not_file
  file_not_compile file_not_any_compile file_not_link compile_is_any_compile
  link_not_any_compile link_not_compile compile_not_link link_is_link
  vertex_is_vertex fragment_is_fragment vertex_not_fragment
  fragment_not_vertex : diag.

(** ** The constructor *)

Section Constructor.
Context {D : GL.Driver}.
Import GL.

(** The three names handed out during a build are distinct and were
    unused before. *)
Lemma build_names_distinct (c : context) :
  let v := fresh (names c) in
  let f := fresh ({[ v ]} ∪ names c) in
  let p := fresh ({[ f ]} ∪ ({[ v ]} ∪ names c)) in
  v ≠ f ∧ v ≠ p ∧ f ≠ p ∧
  shaders c !! v = None ∧ shaders c !! f = None ∧ programs c !! p = None.
Proof.
  intros v f p.
  pose proof (is_fresh (names c)) as Hv. fold v in Hv.
  pose proof (is_fresh ({[ v ]} ∪ names c)) as Hf. fold f in Hf.
  pose proof (is_fresh ({[ f ]} ∪ ({[ v ]} ∪ names c))) as Hp. fold p in Hp.
  unfold names in *.
  repeat split; try (apply not_elem_of_dom); set_solver.
Qed.

Lemma elem_of_middle {A} (x : A) (a b c : list A) : x ∈ b → x ∈ a ++ b ++ c.
Proof. intros H. apply elem_of_app. right. apply elem_of_app. by left. Qed.

(** Membership of a call in the calls of a build: the calls asked for
    are never among the conditional ones. *)
Ltac in_calls :=
  unfold build_calls; cbn [app];
  repeat first
    [ apply list_elem_of_here
    | apply list_elem_of_further
    | apply elem_of_app; right; cbn [app] ].

Ltac built vertexPath fragmentPath w H v f p :=
  pose proof (Shader_built vertexPath fragmentPath w) as H; cbv zeta in H;
  let Hvf := fresh "Hvf" in
  let Hvp := fresh "Hvp" in
  let Hfp := fresh "Hfp" in
  destruct (build_names_distinct (gl w)) as (Hvf & Hvp & Hfp & _);
  cbv zeta in Hvf, Hvp, Hfp;
  set (v := fresh (names (gl w))) in *;
  set (f := fresh ({[ v ]} ∪ names (gl w))) in *;
  set (p := fresh ({[ f ]} ∪ ({[ v ]} ∪ names (gl w)))) in *.

(** Case analysis on what the driver answers for the two compilations
    and the link. *)
Ltac statuses :=
  unfold build_output, linked, compiled;
  cbn [so_compile_status so_info_log so_type so_source];
  destruct (glsl_compile GL_VERTEX_SHADER _) as [[] ?];
  destruct (glsl_compile GL_FRAGMENT_SHADER _) as [[] ?];
  cbn [fst snd andb];
  try destruct (glsl_link _) as [[[] ?] ?];
  cbn [fst snd po_link_status po_info_log po_attached po_uniforms].

Lemma file_calls_are_file_events fs vertexPath fragmentPath :
  forallb is_file_event (read_phase fs vertexPath fragmentPath).2 = true ∧
  forallb is_file_event (destructor_calls fs vertexPath fragmentPath) = true.
Proof.
  unfold read_phase, destructor_calls.
  by destruct (fs !! vertexPath), (fs !! fragmentPath).
Qed.

Lemma build_calls_are_driver_calls v f p vsrc fsrc okv okf okl :
  List.filter is_file_event (build_calls v f p vsrc fsrc okv okf okl) = [].
Proof. unfold build_calls. by destruct okv, okf, okl. Qed.

(** The file calls among the calls of a build. *)
Lemma file_calls_of_build (a b : list event) v f p vsrc fsrc okv okf okl :
  forallb is_file_event a = true →
  forallb is_file_event b = true →
  List.filter is_file_event (a ++ build_calls v f p vsrc fsrc okv okf okl ++ b) =
  a ++ b.
Proof.
  intros Ha Hb.
  rewrite !List.filter_app, build_calls_are_driver_calls. cbn [app].
  f_equal; apply List.forallb_filter_id; assumption.
Qed.

(** The status queries of [checkCompileErrors] are always answered
    during a build: the names it is given are objects. *)
Lemma status_queries_defined vertexPath fragmentPath w :
  ∃ sh w' v f,
    Shader.Shader vertexPath fragmentPath w = (Ok sh, w') ∧
    is_Some (glGetShaderiv v (gl w')) ∧
    is_Some (glGetShaderiv f (gl w')) ∧
    is_Some (glGetProgramiv (Shader.ID sh) (gl w')) ∧
    EvGetShaderiv v ∈ calls w' ∧ EvGetShaderiv f ∈ calls w'.
Proof.
  built vertexPath fragmentPath w H v f p.
  eexists _, _, v, f. split; [exact H|].
  unfold glGetShaderiv, glGetProgramiv. cbn [gl shaders programs calls Shader.ID].
  rewrite lookup_insert_eq, lookup_insert_ne, !lookup_insert_eq by done.
  cbn [fmap option_fmap option_map]. repeat split; try by eexists.
  - apply elem_of_app. right. apply elem_of_middle. in_calls.
  - apply elem_of_app. right. apply elem_of_middle. in_calls.
Qed.

(** C2: for every input the constructor returns a handle, and the
    driver calls it makes are all the steps in program order: create,
    source, compile and check the vertex shader; the same for the
    fragment shader whatever the vertex status was; create the program,
    attach both, link and check whatever the compile statuses were;
    delete both shaders.  Only the fetching of an info log depends on a
    status.  Before these come the file calls of the [try] block, after
    them the closing of a file that a stream still holds. *)
Theorem build_runs_every_step vertexPath fragmentPath w :
  ∃ v f p okv okf okl vsrc fsrc file_calls closes w',
    Shader.Shader vertexPath fragmentPath w = (Ok {| Shader.ID := p |}, w') ∧
    is_Some (programs (gl w') !! p) ∧
    glGetShaderiv v (gl w') = Some okv ∧
    glGetShaderiv f (gl w') = Some okf ∧
    glGetProgramiv p (gl w') = Some okl ∧
    so_source <$> shaders (gl w') !! v = Some vsrc ∧
    so_source <$> shaders (gl w') !! f = Some fsrc ∧
    forallb is_file_event file_calls = true ∧
    forallb is_file_event closes = true ∧
    calls w' = calls w ++ file_calls ++
               build_calls v f p vsrc fsrc okv okf okl ++ closes ∧
    EvCompileShader f ∈ build_calls v f p vsrc fsrc okv okf okl ∧
    EvLinkProgram p ∈ build_calls v f p vsrc fsrc okv okf okl.
Proof.
  built vertexPath fragmentPath w H v f p.
  destruct (file_calls_are_file_events (files w) vertexPath fragmentPath)
    as [Hfile Hclose].
  eexists v, f, p, _, _, _, _, _, _, _, _. split; [exact H|].
  unfold glGetShaderiv, glGetProgramiv. cbn [gl shaders programs calls].
  rewrite lookup_insert_eq, lookup_insert_ne, !lookup_insert_eq by done.
  cbn [fmap option_fmap option_map].
  split; [by eexists|].
  split; [reflexivity|]. split; [reflexivity|]. split; [reflexivity|].
  split; [reflexivity|]. split; [reflexivity|].
  split; [exact Hfile|]. split; [exact Hclose|].
  split; [reflexivity|].
  split; in_calls.
Qed.

(** C7: after every build both shader objects are still attached to
    the returned program and carry the deletion flag, whatever the
    compile and link statuses were; the two deletions are the last
    driver calls, after the link (only the closing of a file can
    follow). *)
Theorem build_flags_both_shaders_for_deletion vertexPath fragmentPath w :
  ∃ sh w' v f po sv sf before closes,
    Shader.Shader vertexPath fragmentPath w = (Ok sh, w') ∧
    programs (gl w') !! Shader.ID sh = Some po ∧
    po_attached po = [v; f] ∧ v ≠ f ∧
    shaders (gl w') !! v = Some sv ∧
    so_type sv = GL_VERTEX_SHADER ∧ so_delete_status sv = true ∧
    shaders (gl w') !! f = Some sf ∧
    so_type sf = GL_FRAGMENT_SHADER ∧ so_delete_status sf = true ∧
    calls w' = before ++ [EvDeleteShader v; EvDeleteShader f] ++ closes ∧
    forallb is_file_event closes = true ∧
    EvLinkProgram (Shader.ID sh) ∈ before.
Proof.
  built vertexPath fragmentPath w H v f p.
  destruct (file_calls_are_file_events (files w) vertexPath fragmentPath)
    as [_ Hclose].
  eexists _, _, v, f, _, _, _, _, _. split; [exact H|].
  cbn [gl shaders programs calls Shader.ID].
  rewrite lookup_insert_eq, lookup_insert_ne, !lookup_insert_eq by done.
  split; [reflexivity|]. split; [apply linked_attached|]. split; [exact Hvf|].
  split; [reflexivity|]. split; [reflexivity|]. split; [reflexivity|].
  split; [reflexivity|]. split; [reflexivity|]. split; [reflexivity|].
  split; [|split; [exact Hclose|]].
  - unfold build_calls. rewrite !app_assoc. reflexivity.
  - rewrite <- !app_assoc. apply elem_of_app. right. apply elem_of_app. right.
    in_calls.
Qed.

(** C9: when the vertex file cannot be opened, the only file call of
    the whole build is that failed open (the fragment file is neither
    opened nor read, readable or not), both shader objects receive the
    empty source, and the file diagnostic is printed exactly once. *)
Theorem vertex_read_failure_skips_fragment vertexPath fragmentPath w :
  files w !! vertexPath = None →
  ∃ sh w' out evs v f po sv sf,
    Shader.Shader vertexPath fragmentPath w = (Ok sh, w') ∧
    cout w' = cout w ++ out ∧
    calls w' = calls w ++ evs ∧
    List.filter is_file_event evs = [EvOpen vertexPath] ∧
    programs (gl w') !! Shader.ID sh = Some po ∧
    po_attached po = [v; f] ∧
    shaders (gl w') !! v = Some sv ∧ so_source sv = EmptyString ∧
    shaders (gl w') !! f = Some sf ∧ so_source sf = EmptyString ∧
    EvShaderSource v EmptyString ∈ evs ∧
    EvShaderSource f EmptyString ∈ evs ∧
    count is_file_diagnostic out = 1.
Proof.
  intros Hnone.
  built vertexPath fragmentPath w H v f p.
  unfold read_phase, destructor_calls in H. rewrite Hnone in H.
  cbn [fst snd c_str] in H.
  eexists _, _, _, _, v, f, _, _, _. split; [exact H|].
  cbn [gl shaders programs calls cout Shader.ID].
  rewrite lookup_insert_eq, lookup_insert_ne, !lookup_insert_eq by done.
  split; [reflexivity|]. split; [reflexivity|].
  split; [by rewrite file_calls_of_build|].
  split; [reflexivity|]. split; [apply linked_attached|].
  split; [reflexivity|]. split; [reflexivity|].
  split; [reflexivity|]. split; [reflexivity|].
  split; [apply elem_of_middle; in_calls|].
  split; [apply elem_of_middle; in_calls|].
  unfold build_output, count.
  destruct (so_compile_status _), (so_compile_status _), (po_link_status _);
    reflexivity.
Qed.

(** C1: the constructor always returns a program handle; a compile
    diagnostic tagged with a stage is printed exactly when the driver
    reports that stage's compile status as failed, and a link
    diagnostic exactly when it reports the link status as failed.  In
    particular, when both files are read, both sources compile and the
    pair links, nothing at all is printed and the handle names a linked
    program. *)
Theorem diagnostics_follow_statuses vertexPath fragmentPath w :
  ∃ sh w' out v f po okv okf,
    Shader.Shader vertexPath fragmentPath w = (Ok sh, w') ∧
    cout w' = cout w ++ out ∧
    programs (gl w') !! Shader.ID sh = Some po ∧
    po_attached po = [v; f] ∧
    glGetShaderiv v (gl w') = Some okv ∧
    glGetShaderiv f (gl w') = Some okf ∧
    (existsb (is_compile_diagnostic "VERTEX") out = true ↔ okv = false) ∧
    (existsb (is_compile_diagnostic "FRAGMENT") out = true ↔ okf = false) ∧
    (existsb is_link_diagnostic out = true ↔ po_link_status po = false) ∧
    (∀ a b,
       files w !! vertexPath = Some (File a) →
       files w !! fragmentPath = Some (File b) →
       (glsl_compile GL_VERTEX_SHADER (c_str a)).1 = true →
       (glsl_compile GL_FRAGMENT_SHADER (c_str b)).1 = true →
       (glsl_link [(GL_VERTEX_SHADER, c_str a);
                   (GL_FRAGMENT_SHADER, c_str b)]).1.1 = true →
       out = [] ∧ okv = true ∧ okf = true ∧ po_link_status po = true).
Proof.
  built vertexPath fragmentPath w H v f p.
  eexists _, _, _, v, f, _, _, _. split; [exact H|].
  unfold glGetShaderiv.
  cbn [gl shaders programs calls cout Shader.ID].
  rewrite lookup_insert_eq, lookup_insert_ne, !lookup_insert_eq by done.
  cbn [fmap option_fmap option_map].
  split; [reflexivity|]. split; [reflexivity|].
  split; [apply linked_attached|].
  split; [reflexivity|]. split; [reflexivity|].
  split; [|split; [|split]].
  - unfold read_phase.
    destruct (files w !! vertexPath); [destruct (files w !! fragmentPath)|];
      cbn [fst snd]; statuses;
      cbn [app existsb]; autorewrite with diag; cbn [orb]; done.
  - unfold read_phase.
    destruct (files w !! vertexPath); [destruct (files w !! fragmentPath)|];
      cbn [fst snd]; statuses;
      cbn [app existsb]; autorewrite with diag; cbn [orb]; done.
  - unfold read_phase.
    destruct (files w !! vertexPath); [destruct (files w !! fragmentPath)|];
      cbn [fst snd]; statuses;
      cbn [app existsb]; autorewrite with diag; cbn [orb]; done.
  - intros a b Ha Hb Hca Hcb Hl.
    unfold read_phase. rewrite Ha, Hb. cbn [fst snd content_of].
    unfold linked, build_output, compiled.
    cbn [so_compile_status so_info_log].
    rewrite Hca, Hcb. cbn [andb po_link_status]. rewrite Hl.
    done.
Qed.


(** C4 as the code has it: when both files are read and exactly one
    stage fails to compile, the output holds exactly one compile
    diagnostic, tagged with that stage, and exactly one link
    diagnostic: the program is linked with the uncompiled shader
    attached and the driver reports the link as failed. *)
Theorem one_broken_stage_is_reported_twice (t : shader_type)
        vertexPath fragmentPath a b w :
  files w !! vertexPath = Some (File a) →
  files w !! fragmentPath = Some (File b) →
  (glsl_compile t (c_str (pick t a b))).1 = false →
  (glsl_compile (other_stage t) (c_str (pick (other_stage t) a b))).1 = true →
  ∃ sh w' out po,
    Shader.Shader vertexPath fragmentPath w = (Ok sh, w') ∧
    cout w' = cout w ++ out ∧
    count is_any_compile_diagnostic out = 1 ∧
    count (is_compile_diagnostic (stage_tag t)) out = 1 ∧
    programs (gl w') !! Shader.ID sh = Some po ∧
    po_link_status po = false ∧
    count is_link_diagnostic out = 1.
Proof.
  intros Ha Hb Hbad Hgood.
  built vertexPath fragmentPath w H v f p.
  unfold read_phase in H. rewrite Ha, Hb in H. cbn [fst snd app content_of] in H.
  eexists _, _, _, _. split; [exact H|].
  cbn [gl shaders programs calls cout Shader.ID].
  rewrite lookup_insert_eq.
  split; [reflexivity|].
  unfold build_output, linked, compiled, count.
  cbn [so_compile_status so_info_log so_type so_source].
  destruct t; cbn [pick other_stage stage_tag] in *; rewrite Hbad, Hgood;
    cbn [andb po_link_status po_info_log app];
    cbn [List.filter]; autorewrite with diag; repeat split; reflexivity.
Qed.


(** *** Further properties of the constructor *)

Lemma build_names_unused (c : context) :
  let v := fresh (names c) in
  let f := fresh ({[ v ]} ∪ names c) in
  let p := fresh ({[ f ]} ∪ ({[ v ]} ∪ names c)) in
  (v ∉ names c) ∧ (f ∉ names c) ∧ (p ∉ names c).
Proof.
  intros v f p.
  pose proof (is_fresh (names c)) as Hv. fold v in Hv.
  pose proof (is_fresh ({[ v ]} ∪ names c)) as Hf. fold f in Hf.
  pose proof (is_fresh ({[ f ]} ∪ ({[ v ]} ∪ names c))) as Hp. fold p in Hp.
  set_solver.
Qed.

(** X1: a build hands out a program name that was not in use (and is
    not 0), and leaves the files, the current program, the error flag
    and every shader and program object that existed before exactly as
    they were; no stream of the constructor still holds a file. *)
Theorem build_leaves_existing_objects vertexPath fragmentPath w :
  ∃ sh w',
    Shader.Shader vertexPath fragmentPath w = (Ok sh, w') ∧
    (Shader.ID sh ∉ names (gl w)) ∧
    Shader.ID sh ≠ 0%N ∧
    files w' = files w ∧
    open_streams w' = [] ∧
    current_program (gl w') = current_program (gl w) ∧
    error_flag (gl w') = error_flag (gl w) ∧
    ∀ n, n ∈ names (gl w) →
         shaders (gl w') !! n = shaders (gl w) !! n ∧
         programs (gl w') !! n = programs (gl w) !! n.
Proof.
  built vertexPath fragmentPath w H v f p.
  destruct (build_names_unused (gl w)) as (Hv & Hf & Hp).
  fold v in Hv, Hf, Hp. fold f in Hf, Hp. fold p in Hp.
  eexists _, _. split; [exact H|].
  cbn [gl shaders programs files open_streams current_program error_flag Shader.ID].
  split; [exact Hp|].
  split; [unfold names in Hp; set_solver|].
  split; [reflexivity|]. split; [reflexivity|].
  split; [reflexivity|]. split; [reflexivity|].
  intros n Hn.
  assert (n ≠ v) by (intros ->; done).
  assert (n ≠ f) by (intros ->; done).
  assert (n ≠ p) by (intros ->; done).
  by rewrite !lookup_insert_ne.
Qed.

(** X2: two builds in a row return different program names, and the
    second build leaves the program of the first one, uniform values
    included, as it was. *)
Theorem second_build_keeps_first vertexPath1 fragmentPath1
        vertexPath2 fragmentPath2 w :
  ∃ a b w1 w2 po,
    Shader.Shader vertexPath1 fragmentPath1 w = (Ok a, w1) ∧
    Shader.Shader vertexPath2 fragmentPath2 w1 = (Ok b, w2) ∧
    Shader.ID a ≠ Shader.ID b ∧
    programs (gl w1) !! Shader.ID a = Some po ∧
    programs (gl w2) !! Shader.ID a = Some po ∧
    is_Some (programs (gl w2) !! Shader.ID b).
Proof.
  built vertexPath1 fragmentPath1 w H1 v1 f1 p1.
  match type of H1 with _ = (_, ?x) => set (w1 := x) in * end.
  built vertexPath2 fragmentPath2 w1 H2 v2 f2 p2.
  destruct (build_names_unused (gl w1)) as (Hv & Hf & Hp).
  fold v2 in Hv, Hf, Hp. fold f2 in Hf, Hp. fold p2 in Hp.
  assert (Hin : p1 ∈ names (gl w1)).
  { unfold names, w1. cbn [gl shaders programs]. rewrite dom_insert_L.
    set_solver. }
  assert (Hne : p1 ≠ p2) by (intros Heq; rewrite Heq in Hin; done).
  eexists _, _, w1, _, _. split; [exact H1|]. split; [exact H2|].
  cbn [gl shaders programs Shader.ID].
  split; [exact Hne|].
  unfold w1 at 1. cbn [gl programs]. rewrite lookup_insert_eq.
  split; [reflexivity|].
  rewrite lookup_insert_ne by done. rewrite lookup_insert_eq.
  split; [|by eexists].
  unfold w1. cbn [gl programs]. by rewrite lookup_insert_eq.
Qed.


(** X4: when the vertex file opens but the fragment file does not, the
    build opens the vertex file, fails to open the fragment file, makes
    all its driver calls and only then closes the vertex file, when the
    stream is destroyed: the vertex file is never read and is held open
    throughout.  Its content is not used (both shader objects receive
    the empty source) and the file diagnostic is printed once. *)
Theorem fragment_read_failure_discards_vertex vertexPath fragmentPath a w :
  files w !! vertexPath = Some a →
  files w !! fragmentPath = None →
  ∃ sh w' out v f po sv sf okv okf okl,
    Shader.Shader vertexPath fragmentPath w = (Ok sh, w') ∧
    cout w' = cout w ++ out ∧
    calls w' = calls w ++ [EvOpen vertexPath; EvOpen fragmentPath] ++
               build_calls v f (Shader.ID sh) EmptyString EmptyString okv okf okl ++
               [EvClose vertexPath] ∧
    List.filter is_file_event (calls w') =
      List.filter is_file_event (calls w) ++
      [EvOpen vertexPath; EvOpen fragmentPath; EvClose vertexPath] ∧
    open_streams w' = [] ∧
    programs (gl w') !! Shader.ID sh = Some po ∧
    po_attached po = [v; f] ∧
    shaders (gl w') !! v = Some sv ∧ so_source sv = EmptyString ∧
    shaders (gl w') !! f = Some sf ∧ so_source sf = EmptyString ∧
    count is_file_diagnostic out = 1.
Proof.
  intros Ha Hnone.
  built vertexPath fragmentPath w H v f p.
  unfold read_phase, destructor_calls in H. rewrite Ha, Hnone in H.
  cbn [fst snd c_str] in H.
  eexists _, _, _, v, f, _, _, _, _, _, _. split; [exact H|].
  cbn [gl shaders programs calls cout open_streams Shader.ID].
  rewrite lookup_insert_eq, lookup_insert_ne, !lookup_insert_eq by done.
  split; [reflexivity|]. split; [reflexivity|].
  split; [by rewrite List.filter_app, file_calls_of_build|].
  split; [reflexivity|]. split; [reflexivity|].
  split; [apply linked_attached|].
  split; [reflexivity|]. split; [reflexivity|].
  split; [reflexivity|]. split; [reflexivity|].
  unfold build_output, count.
  destruct (so_compile_status _), (so_compile_status _), (po_link_status _);
    reflexivity.
Qed.

(** X5: when both files open, the build opens the vertex file, opens
    the fragment file, reads both and closes both, in this order; it
    prints no file diagnostic; and each shader object receives the
    content of its file up to the first NUL character. *)
Theorem readable_files_reach_the_driver vertexPath fragmentPath a b w :
  files w !! vertexPath = Some (File a) →
  files w !! fragmentPath = Some (File b) →
  ∃ sh w' out evs v f po sv sf,
    Shader.Shader vertexPath fragmentPath w = (Ok sh, w') ∧
    cout w' = cout w ++ out ∧
    calls w' = calls w ++ evs ∧
    List.filter is_file_event evs =
      [EvOpen vertexPath; EvOpen fragmentPath; EvReadAll vertexPath;
       EvReadAll fragmentPath; EvClose vertexPath; EvClose fragmentPath] ∧
    programs (gl w') !! Shader.ID sh = Some po ∧
    po_attached po = [v; f] ∧
    shaders (gl w') !! v = Some sv ∧ so_source sv = c_str a ∧
    shaders (gl w') !! f = Some sf ∧ so_source sf = c_str b ∧
    count is_file_diagnostic out = 0.
Proof.
  intros Ha Hb.
  built vertexPath fragmentPath w H v f p.
  unfold read_phase, destructor_calls in H. rewrite Ha, Hb in H.
  cbn [fst snd content_of] in H.
  eexists _, _, _, _, v, f, _, _, _. split; [exact H|].
  cbn [gl shaders programs calls cout Shader.ID].
  rewrite lookup_insert_eq, lookup_insert_ne, !lookup_insert_eq by done.
  split; [reflexivity|]. split; [reflexivity|].
  split; [by rewrite file_calls_of_build|].
  split; [reflexivity|]. split; [apply linked_attached|].
  split; [reflexivity|]. split; [reflexivity|].
  split; [reflexivity|]. split; [reflexivity|].
  unfold build_output, count.
  destruct (so_compile_status _), (so_compile_status _), (po_link_status _);
    reflexivity.
Qed.

Lemma c_str_before_NUL (src rest : string) :
  NUL_free src = true → c_str (src +:+ String zero rest) = src.
Proof.
  induction src as [|c src IH]; intros Hfree.
  - reflexivity.
  - cbn [NUL_free] in Hfree. apply andb_true_iff in Hfree as [Hc Hs].
    apply negb_true_iff in Hc.
    change (String c src +:+ String zero rest)
      with (String c (src +:+ String zero rest)).
    cbn [c_str]. rewrite Hc. by rewrite (IH Hs).
Qed.

(** X6: what follows a NUL character in a source file never reaches
    the driver.  When the file of a stage holds [src], a NUL and anything
    after it, with no NUL in [src], the shader object of that stage
    holds [src] and its compile status is that of [src]. *)
Theorem source_ends_at_first_NUL (t : shader_type)
        vertexPath fragmentPath a b src rest w :
  files w !! vertexPath = Some (File a) →
  files w !! fragmentPath = Some (File b) →
  pick t a b = src +:+ String zero rest →
  NUL_free src = true →
  ∃ sh w' s so po,
    Shader.Shader vertexPath fragmentPath w = (Ok sh, w') ∧
    programs (gl w') !! Shader.ID sh = Some po ∧
    s ∈ po_attached po ∧
    shaders (gl w') !! s = Some so ∧
    so_type so = t ∧
    so_source so = src ∧
    so_compile_status so = (glsl_compile t src).1 ∧
    EvShaderSource s src ∈ calls w'.
Proof.
  intros Ha Hb Hpick Hfree.
  built vertexPath fragmentPath w H v f p.
  unfold read_phase in H. rewrite Ha, Hb in H. cbn [fst snd content_of] in H.
  destruct t; cbn [pick] in Hpick; rewrite Hpick in H;
    rewrite (c_str_before_NUL _ _ Hfree) in H.
  - eexists _, _, v, _, _. split; [exact H|].
    cbn [gl shaders programs calls Shader.ID].
    rewrite lookup_insert_eq, lookup_insert_ne, !lookup_insert_eq by done.
    rewrite linked_attached.
    repeat split; try reflexivity.
    + apply list_elem_of_here.
    + apply elem_of_app. right. apply elem_of_middle. in_calls.
  - eexists _, _, f, _, _. split; [exact H|].
    cbn [gl shaders programs calls Shader.ID].
    rewrite !lookup_insert_eq by done.
    rewrite linked_attached.
    repeat split; try reflexivity.
    + apply list_elem_of_further, list_elem_of_here.
    + apply elem_of_app. right. apply elem_of_middle. in_calls.
Qed.

Lemma substring_0_prefix (n : nat) (s : string) :
  String.prefix (substring 0 n s) s = true.
Proof.
  revert s. induction n as [|n IH]; intros s.
  - by destruct s.
  - destruct s as [|c s]; [reflexivity|].
    change (match ascii_dec c c with
            | left _ => String.prefix (substring 0 n s) s
            | right _ => false
            end = true).
    destruct (ascii_dec c c); [apply IH | done].
Qed.

Lemma substring_0_length (n : nat) (s : string) :
  String.length (substring 0 n s) = Nat.min n (String.length s).
Proof.
  revert s. induction n as [|n IH]; intros s.
  - by destruct s.
  - destruct s as [|c s]; [reflexivity|].
    cbn [substring String.length Nat.min]. by rewrite IH.
Qed.

(** X7: a diagnostic carries the info log of the driver cut to the
    1023 characters that fit the buffer of [checkCompileErrors]: for
    each failed status the printed text is the header of that check
    around a prefix of the log of length min(1023, length of the log). *)
Theorem diagnostics_cut_the_log vertexPath fragmentPath w :
  ∃ sh w' out v f po sv sf,
    Shader.Shader vertexPath fragmentPath w = (Ok sh, w') ∧
    cout w' = cout w ++ out ∧
    programs (gl w') !! Shader.ID sh = Some po ∧
    po_attached po = [v; f] ∧
    shaders (gl w') !! v = Some sv ∧
    shaders (gl w') !! f = Some sf ∧
    (so_compile_status sv = false →
     ∃ l, Shader.compile_diagnostic "VERTEX" l ∈ out ∧
          String.prefix l (so_info_log sv) = true ∧
          String.length l = Nat.min 1023 (String.length (so_info_log sv))) ∧
    (so_compile_status sf = false →
     ∃ l, Shader.compile_diagnostic "FRAGMENT" l ∈ out ∧
          String.prefix l (so_info_log sf) = true ∧
          String.length l = Nat.min 1023 (String.length (so_info_log sf))) ∧
    (po_link_status po = false →
     ∃ l, Shader.link_diagnostic "PROGRAM" l ∈ out ∧
          String.prefix l (po_info_log po) = true ∧
          String.length l = Nat.min 1023 (String.length (po_info_log po))).
Proof.
  built vertexPath fragmentPath w H v f p.
  eexists _, _, _, v, f, _, _, _. split; [exact H|].
  cbn [gl shaders programs cout Shader.ID].
  rewrite lookup_insert_eq, lookup_insert_ne, !lookup_insert_eq by done.
  split; [reflexivity|]. split; [reflexivity|].
  split; [apply linked_attached|].
  split; [reflexivity|]. split; [reflexivity|].
  unfold build_output.
  split; [|split]; intros Hfail; rewrite Hfail;
    eexists; (split; [|split; [apply substring_0_prefix | apply substring_0_length]]).
  - apply elem_of_app. right. apply elem_of_app. left. apply list_elem_of_here.
  - apply elem_of_app. right. apply elem_of_app. right.
    apply elem_of_app. left. apply list_elem_of_here.
  - apply elem_of_app. right. apply elem_of_app. right.
    apply elem_of_app. right. apply list_elem_of_here.
Qed.

(** X19: what can be opened but not read is taken for an empty file.
    When the path of a stage opens and cannot be read, and the other
    path opens as well, nothing is thrown: the build reads both paths and
    closes both, prints no file diagnostic, and the shader object of
    that stage receives the empty source. *)
Theorem unreadable_file_reads_as_empty (t : shader_type)
        vertexPath fragmentPath w :
  files w !! pick t vertexPath fragmentPath = Some Unreadable →
  is_Some (files w !! pick (other_stage t) vertexPath fragmentPath) →
  ∃ sh w' out evs s so po,
    Shader.Shader vertexPath fragmentPath w = (Ok sh, w') ∧
    cout w' = cout w ++ out ∧
    count is_file_diagnostic out = 0 ∧
    calls w' = calls w ++ evs ∧
    List.filter is_file_event evs =
      [EvOpen vertexPath; EvOpen fragmentPath; EvReadAll vertexPath;
       EvReadAll fragmentPath; EvClose vertexPath; EvClose fragmentPath] ∧
    programs (gl w') !! Shader.ID sh = Some po ∧
    s ∈ po_attached po ∧
    shaders (gl w') !! s = Some so ∧
    so_type so = t ∧ so_source so = EmptyString.
Proof.
  intros Hun [b Hb].
  built vertexPath fragmentPath w H v f p.
  unfold read_phase, destructor_calls in H.
  destruct t; cbn [pick other_stage] in Hun, Hb; rewrite Hun, Hb in H;
    cbn [fst snd content_of c_str] in H.
  - eexists _, _, _, _, v, _, _. split; [exact H|].
    cbn [gl shaders programs calls cout Shader.ID].
    rewrite lookup_insert_eq, lookup_insert_ne, !lookup_insert_eq by done.
    rewrite linked_attached.
    split; [reflexivity|].
    split.
    { unfold build_output, count.
      destruct (so_compile_status _), (so_compile_status _), (po_link_status _);
        reflexivity. }
    split; [reflexivity|]. split; [by rewrite file_calls_of_build|].
    split; [reflexivity|]. split; [apply list_elem_of_here|].
    split; [reflexivity|]. split; reflexivity.
  - eexists _, _, _, _, f, _, _. split; [exact H|].
    cbn [gl shaders programs calls cout Shader.ID].
    rewrite !lookup_insert_eq by done.
    rewrite linked_attached.
    split; [reflexivity|].
    split.
    { unfold build_output, count.
      destruct (so_compile_status _), (so_compile_status _), (po_link_status _);
        reflexivity. }
    split; [reflexivity|]. split; [by rewrite file_calls_of_build|].
    split; [reflexivity|]. split; [apply list_elem_of_further, list_elem_of_here|].
    split; [reflexivity|]. split; reflexivity.
Qed.

End Constructor.
(** ** Binding and uniforms *)

Section Uniforms.
Context {D : GL.Driver}.
Import GL.

Lemma location_of_absent name (us : list uniform) :
  (∀ u, u ∈ us → names_uniform name u = false) →
  location_of name us = (-1)%Z.
Proof.
  induction us as [|u us IH]; [done|].
  intros Hno. cbn [location_of].
  rewrite (Hno u) by apply list_elem_of_here.
  rewrite IH; [done|]. intros u' Hu'. apply Hno. by apply list_elem_of_further.
Qed.

(** A location that is not -1 is the index of a uniform found under
    that name. *)
Lemma location_of_found name (us : list uniform) :
  (0 ≤ location_of name us)%Z →
  ∃ u, us !! Z.to_nat (location_of name us) = Some u ∧
       names_uniform name u = true.
Proof.
  induction us as [|u us IH]; cbn [location_of]; [lia|].
  destruct (names_uniform name u) eqn:Hn.
  - intros _. exists u. done.
  - destruct (Z.ltb_spec (location_of name us) 0) as [Hlt|Hge]; [lia|].
    intros _. destruct (IH Hge) as (u' & Hu' & Hn').
    exists u'. split; [|done].
    replace (Z.to_nat (location_of name us + 1))
      with (S (Z.to_nat (location_of name us))) by lia.
    exact Hu'.
Qed.

Lemma location_of_present name (us : list uniform) :
  (∃ u, u ∈ us ∧ names_uniform name u = true) →
  (0 ≤ location_of name us)%Z.
Proof.
  induction us as [|u us IH]; intros (u' & Hin & Hn).
  - by apply elem_of_nil in Hin.
  - cbn [location_of].
    destruct (names_uniform name u) eqn:Hu; [lia|].
    apply elem_of_cons in Hin as [->|Hin]; [congruence|].
    assert (0 ≤ location_of name us)%Z by (apply IH; by exists u').
    destruct (Z.ltb_spec (location_of name us) 0); lia.
Qed.

Lemma location_of_names name (us us' : list uniform) :
  u_name <$> us' = u_name <$> us →
  location_of name us' = location_of name us.
Proof.
  revert us'. induction us as [|u us IH]; intros [|u' us'] Heq;
    try discriminate Heq; [done|].
  rewrite !fmap_cons in Heq. injection Heq as Hn Hrest.
  cbn [location_of]. unfold names_uniform. by rewrite Hn, (IH us' Hrest).
Qed.

Lemma glGetUniformLocation_linked p name po c :
  programs c !! p = Some po → po_link_status po = true →
  glGetUniformLocation p name c = location_of name (po_uniforms po).
Proof. intros Hp Hl. unfold glGetUniformLocation. by rewrite Hp, Hl. Qed.

Lemma glGetUniformLocation_inactive p name c :
  ¬ active_uniform p name c → glGetUniformLocation p name c = (-1)%Z.
Proof.
  intros Hn. unfold glGetUniformLocation.
  destruct (programs c !! p) as [po|] eqn:Hp; [|done].
  destruct (po_link_status po) eqn:Hl; [|done].
  apply location_of_absent. intros u Hu.
  destruct (names_uniform name u) eqn:Hf; [|done].
  exfalso. apply Hn. exists po. split; [done|]. split; [done|]. by exists u.
Qed.

(** *** Rejected calls *)

Lemma record_error_idem e c :
  record_error e (record_error e c) = record_error e c.
Proof.
  unfold record_error. destruct (error_flag c) eqn:E; cbn [error_flag];
    rewrite ?E; [by destruct e | done | done].
Qed.

Lemma record_error_sets e c :
  e ≠ GL_NO_ERROR → error_flag (record_error e c) ≠ GL_NO_ERROR.
Proof. intros He. rewrite record_error_flag. by destruct (error_flag c). Qed.

Lemma program_query_linked p po c :
  programs c !! p = Some po → po_link_status po = true →
  program_query true p c = c.
Proof. intros Hp Hl. unfold program_query. by rewrite Hp, Hl. Qed.

(** A location query on what is no linked program is rejected and
    answers -1. *)
Lemma program_query_rejected p c :
  (∀ po, programs c !! p = Some po → po_link_status po = false) →
  (∀ name, glGetUniformLocation p name c = (-1)%Z) ∧
  ∃ e, e ≠ GL_NO_ERROR ∧ program_query true p c = record_error e c ∧
       (is_Some (programs c !! p) → e = GL_INVALID_OPERATION).
Proof.
  intros Hun. unfold glGetUniformLocation, program_query, no_program.
  destruct (programs c !! p) as [po|] eqn:Hp.
  - rewrite (Hun po eq_refl). cbn [andb negb].
    split; [done|].
    exists GL_INVALID_OPERATION. done.
  - split; [done|].
    destruct (shaders c !! p); eexists; (split; [|split; [reflexivity|]]);
      try done; by intros [? ?].
Qed.

Lemma program_query_kept b p c :
  error_flag c ≠ GL_NO_ERROR → program_query b p c = c.
Proof.
  intros Hf. unfold program_query, no_program.
  destruct (programs c !! p) as [po|].
  - destruct (b && negb (po_link_status po)); [by apply record_error_kept | done].
  - by apply record_error_kept.
Qed.

(** With the flag set, a write to location -1 changes nothing,
    whether a program is current or not. *)
Lemma write_uniform_kept store c :
  error_flag c ≠ GL_NO_ERROR → write_uniform store (-1) c = c.
Proof.
  intros Hf. unfold write_uniform.
  destruct (programs c !! current_program c); [done|].
  by apply record_error_kept.
Qed.

(** *** What a write can do *)

(** What one driver write can do to the context: nothing, record an
    error, or replace the value of the uniform at [loc] of the current
    program. *)
Lemma write_uniform_frame store loc (c : context) :
  write_uniform store loc c = c ∨
  (∃ e, write_uniform store loc c = record_error e c) ∨
  ∃ po u val,
    programs c !! current_program c = Some po ∧
    (0 ≤ loc)%Z ∧
    po_uniforms po !! Z.to_nat loc = Some u ∧
    store (u_type u) = Accepted val ∧
    write_uniform store loc c =
    set_program (current_program c)
      {| po_attached := po_attached po;
         po_link_status := po_link_status po;
         po_info_log := po_info_log po;
         po_uniforms := <[Z.to_nat loc := set_value val u]> (po_uniforms po) |} c.
Proof.
  unfold write_uniform.
  destruct (programs c !! current_program c) as [po|] eqn:Hp;
    [|right; left; by eexists].
  destruct (Z.eqb_spec loc (-1)) as [Heq|Hne]; [by left|].
  destruct (Z.ltb_spec loc 0) as [Hlt|Hge]; [right; left; by eexists|].
  destruct (po_uniforms po !! Z.to_nat loc) as [u|] eqn:Hu;
    [|right; left; by eexists].
  destruct (store (u_type u)) as [val|e] eqn:Hs; [|right; left; by eexists].
  right. right. exists po, u, val. done.
Qed.

(** An accepted write at a location of the current program. *)
Lemma write_uniform_accepted store loc c po u val :
  programs c !! current_program c = Some po →
  (0 ≤ loc)%Z →
  po_uniforms po !! Z.to_nat loc = Some u →
  store (u_type u) = Accepted val →
  write_uniform store loc c =
  set_program (current_program c)
    {| po_attached := po_attached po;
       po_link_status := po_link_status po;
       po_info_log := po_info_log po;
       po_uniforms := <[Z.to_nat loc := set_value val u]> (po_uniforms po) |} c.
Proof.
  intros Hp Hge Hu Hs. unfold write_uniform. rewrite Hp.
  destruct (Z.eqb_spec loc (-1)); [lia|].
  destruct (Z.ltb_spec loc 0); [lia|].
  by rewrite Hu, Hs.
Qed.

Lemma write_uniform_rejected store loc c po u e :
  programs c !! current_program c = Some po →
  (0 ≤ loc)%Z →
  po_uniforms po !! Z.to_nat loc = Some u →
  store (u_type u) = Rejected e →
  write_uniform store loc c = record_error e c.
Proof.
  intros Hp Hge Hu Hs. unfold write_uniform. rewrite Hp.
  destruct (Z.eqb_spec loc (-1)); [lia|].
  destruct (Z.ltb_spec loc 0); [lia|].
  by rewrite Hu, Hs.
Qed.

(** *** Calls that keep the shape of the context *)

Lemma same_program_shape_refl po : same_program_shape po po.
Proof. by repeat split. Qed.

Lemma same_shape_refl c : same_shape c c.
Proof.
  split; [done|]. intros p.
  destruct (programs c !! p); [apply same_program_shape_refl | done].
Qed.

Lemma same_shape_objects c c' :
  shaders c' = shaders c → programs c' = programs c → same_shape c c'.
Proof.
  intros Hs Hp. split; [done|]. intros p. rewrite Hp.
  destruct (programs c !! p); [apply same_program_shape_refl | done].
Qed.

Lemma same_shape_trans c1 c2 c3 :
  same_shape c1 c2 → same_shape c2 c3 → same_shape c1 c3.
Proof.
  intros [Hs12 Hp12] [Hs23 Hp23]. split; [congruence|].
  intros p. specialize (Hp12 p). specialize (Hp23 p).
  destruct (programs c1 !! p), (programs c2 !! p), (programs c3 !! p);
    try done.
  destruct Hp12 as (?&?&?&?&?), Hp23 as (?&?&?&?&?).
  repeat split; congruence.
Qed.

Lemma same_shape_location c c' p name :
  same_shape c c' →
  glGetUniformLocation p name c' = glGetUniformLocation p name c.
Proof.
  intros [_ Hp]. specialize (Hp p). unfold glGetUniformLocation.
  destruct (programs c !! p) as [po|], (programs c' !! p) as [po'|];
    try done.
  destruct Hp as (_ & Hl & _ & Hn & _). rewrite Hl.
  destruct (po_link_status po); [|done].
  by apply location_of_names.
Qed.

Lemma record_error_same_shape e c : same_shape c (record_error e c).
Proof.
  destruct (record_error_objects e c) as (Hs & Hp & _).
  by apply same_shape_objects.
Qed.

Lemma program_query_objects b p c :
  shaders (program_query b p c) = shaders c ∧
  programs (program_query b p c) = programs c ∧
  current_program (program_query b p c) = current_program c.
Proof.
  unfold program_query, no_program.
  destruct (programs c !! p) as [po|]; [|apply record_error_objects].
  destruct (b && negb (po_link_status po)); [apply record_error_objects | done].
Qed.

Lemma program_query_same_shape b p c : same_shape c (program_query b p c).
Proof.
  destruct (program_query_objects b p c) as (Hs & Hp & _).
  by apply same_shape_objects.
Qed.

Lemma write_uniform_same_shape store loc c :
  same_shape c (write_uniform store loc c).
Proof.
  destruct (write_uniform_frame store loc c)
    as [-> | [[e ->] | (po & u & val & Hp & Hge & Hu & _ & ->)]];
    [apply same_shape_refl | apply record_error_same_shape |].
  split; [done|]. intros p. unfold set_program. cbn [programs].
  destruct (decide (p = current_program c)) as [->|Hne].
  - rewrite lookup_insert_eq, Hp.
    repeat split; cbn [po_attached po_link_status po_info_log po_uniforms].
    + rewrite list_fmap_insert. cbn [set_value u_name].
      apply list_insert_id. by rewrite list_lookup_fmap, Hu.
    + rewrite list_fmap_insert. cbn [set_value u_type].
      apply list_insert_id. by rewrite list_lookup_fmap, Hu.
  - rewrite lookup_insert_ne by done.
    destruct (programs c !! p); [apply same_program_shape_refl | done].
Qed.

Lemma glUseProgram_objects p c :
  shaders (glUseProgram p c) = shaders c ∧
  programs (glUseProgram p c) = programs c.
Proof.
  unfold glUseProgram, no_program. destruct (p =? 0)%N; [done|].
  destruct (programs c !! p) as [po|].
  - destruct (po_link_status po); [done|].
    destruct (record_error_objects GL_INVALID_OPERATION c) as (? & ? & _). done.
  - match goal with |- context [record_error ?e c] =>
      destruct (record_error_objects e c) as (? & ? & _) end.
    done.
Qed.

Lemma glUseProgram_same_shape p c : same_shape c (glUseProgram p c).
Proof.
  destruct (glUseProgram_objects p c) as [Hs Hp].
  by apply same_shape_objects.
Qed.

Lemma set_uniform_same_shape self name arg w :
  same_shape (gl w)
    (write_uniform (stored arg)
       (glGetUniformLocation (Shader.ID self) (c_str name) (gl w))
       (program_query true (Shader.ID self) (gl w))).
Proof.
  eapply same_shape_trans;
    [apply program_query_same_shape | apply write_uniform_same_shape].
Qed.

(** *** The member functions in closed form *)

Lemma set_uniform_run self name arg w :
  set_uniform self name arg w =
  (Ok tt,
   {| files := files w; open_streams := open_streams w;
      gl := write_uniform (stored arg)
              (glGetUniformLocation (Shader.ID self) (c_str name) (gl w))
              (program_query true (Shader.ID self) (gl w));
      cout := cout w;
      calls := calls w ++
        [EvGetUniformLocation (Shader.ID self) (c_str name)
           (glGetUniformLocation (Shader.ID self) (c_str name) (gl w));
         write_event
           (glGetUniformLocation (Shader.ID self) (c_str name) (gl w)) arg] |}).
Proof.
  destruct arg; cbn; by rewrite <- app_assoc.
Qed.

(** C5 as the code has it: each of [setBool], [setInt] and [setFloat]
    asks the driver for the location of the name, read as a C string,
    on that very call and hands the answer to the write; the call always
    returns normally, prints nothing and touches no file.  When the
    program of the object is linked, some program is current and the C
    string finds no active uniform of the program, the whole GL context,
    error flag included, is left as it was. *)
Theorem missing_uniform_write_is_discarded self name arg w :
  ∃ w',
    set_uniform self name arg w = (Ok tt, w') ∧
    calls w' = calls w ++
      [EvGetUniformLocation (Shader.ID self) (c_str name)
         (glGetUniformLocation (Shader.ID self) (c_str name) (gl w));
       write_event
         (glGetUniformLocation (Shader.ID self) (c_str name) (gl w)) arg] ∧
    cout w' = cout w ∧ files w' = files w ∧
    (∀ po,
       programs (gl w) !! Shader.ID self = Some po →
       po_link_status po = true →
       is_Some (programs (gl w) !! current_program (gl w)) →
       ¬ active_uniform (Shader.ID self) (c_str name) (gl w) →
       gl w' = gl w).
Proof.
  eexists. split; [apply set_uniform_run|].
  cbn [gl cout calls files]. split; [reflexivity|].
  split; [reflexivity|]. split; [reflexivity|].
  intros po Hp Hl [cur Hcur] Hn.
  rewrite (glGetUniformLocation_inactive _ _ _ Hn).
  rewrite (program_query_linked _ _ _ Hp Hl).
  unfold write_uniform. by rewrite Hcur.
Qed.

(** C10: [setBool] with [true] is [setInt] with 1, and with [false] it
    is [setInt] with 0: outcome, context, output and driver calls are
    the same. *)
Theorem setBool_is_setInt self name (b : bool) w :
  Shader.setBool self name b w =
  Shader.setInt self name (if b then 1 else 0)%Z w.
Proof. by destruct b. Qed.


(** [use] on an object whose program is linked makes that program the
    current one and leaves the objects and the error flag alone. *)
Lemma use_binds_linked_program self po w :
  programs (gl w) !! Shader.ID self = Some po →
  po_link_status po = true →
  ∃ w', Shader.use self w = (Ok tt, w') ∧
        current_program (gl w') = Shader.ID self ∧
        programs (gl w') = programs (gl w) ∧
        shaders (gl w') = shaders (gl w) ∧
        error_flag (gl w') = error_flag (gl w).
Proof.
  intros Hp Hl. eexists. split; [reflexivity|]. cbn [gl].
  unfold glUseProgram.
  destruct (N.eqb_spec (Shader.ID self) 0) as [->|_]; [done|].
  by rewrite Hp, Hl.
Qed.

(** The value read back at a location after an accepted write there. *)
Lemma glGetUniform_written p loc po u val c :
  (0 ≤ loc)%Z →
  po_uniforms po !! Z.to_nat loc = Some u →
  glGetUniform p loc
    (set_program p
       {| po_attached := po_attached po;
          po_link_status := po_link_status po;
          po_info_log := po_info_log po;
          po_uniforms := <[Z.to_nat loc := set_value val u]> (po_uniforms po) |} c) =
  Some val.
Proof.
  intros Hge Hu. unfold glGetUniform, set_program. cbn [programs].
  destruct (Z.ltb_spec loc 0); [lia|].
  rewrite lookup_insert_eq. cbn [mbind option_bind po_uniforms].
  rewrite list_lookup_insert_eq by (by eapply lookup_lt_Some).
  reflexivity.
Qed.

(** Every driver has the texture unit 5. *)
Lemma five_is_a_texture_unit : (0 ≤ 5 < max_combined_texture_image_units)%Z.
Proof. pose proof texture_units_minimum. lia. Qed.

(** C6 as the code has it: when the program of the object is linked
    and is the current program (as after [use]), and [name] finds an
    active uniform of an integer type, [setInt(name, value)] followed by
    a query of that uniform returns [value] and no error is recorded; a
    sampler takes the number of a texture unit.  The claim is the case
    of ["u_name"] and 5, which is a texture unit of every driver (lemma
    [five_is_a_texture_unit]). *)
Theorem setInt_reads_back self name (value : Z) po w :
  programs (gl w) !! Shader.ID self = Some po →
  po_link_status po = true →
  (∃ u, u ∈ po_uniforms po ∧ names_uniform (c_str name) u = true) →
  (∀ u, u ∈ po_uniforms po → names_uniform (c_str name) u = true →
        u_type u = GL_INT ∨
        (u_type u = GL_SAMPLER_2D ∧
         (0 ≤ value < max_combined_texture_image_units)%Z)) →
  current_program (gl w) = Shader.ID self →
  ∃ w',
    Shader.setInt self name value w = (Ok tt, w') ∧
    glGetUniform (Shader.ID self)
      (glGetUniformLocation (Shader.ID self) (c_str name) (gl w')) (gl w') =
    Some (VInt value) ∧
    error_flag (gl w') = error_flag (gl w).
Proof.
  intros Hp Hl Hin Hty Hcur.
  pose proof (set_uniform_run self name (IntArg value) w) as Hrun.
  cbn [set_uniform] in Hrun.
  eexists. split; [exact Hrun|]. cbn [gl].
  rewrite (program_query_linked _ _ _ Hp Hl).
  rewrite (glGetUniformLocation_linked _ _ _ _ Hp Hl).
  pose proof (location_of_present _ _ Hin) as Hge.
  destruct (location_of_found _ _ Hge) as (u & Hu & Hname).
  assert (Hstore : stored (IntArg value) (u_type u) = Accepted (VInt value)).
  { cbn [stored].
    destruct (Hty u) as [-> | [-> Hrange]]; try done.
    - apply list_elem_of_lookup. by eexists.
    - cbn [store_1i].
      destruct (Z.leb_spec 0 value); [|lia].
      destruct (Z.ltb_spec value max_combined_texture_image_units); [|lia].
      reflexivity. }
  rewrite (same_shape_location _ _ _ _
             (write_uniform_same_shape (stored (IntArg value)) _ (gl w))).
  rewrite (glGetUniformLocation_linked _ _ _ _ Hp Hl).
  rewrite <- Hcur in Hp.
  rewrite (write_uniform_accepted _ _ _ _ _ _ Hp Hge Hu Hstore).
  rewrite Hcur. split; [by apply glGetUniform_written | reflexivity].
Qed.

Lemma invoke_run self m w : ∃ w', invoke self m w = (Ok self, w').
Proof.
  destruct m as [|name arg].
  - by eexists.
  - unfold invoke. erewrite bind_Ok by apply set_uniform_run. by eexists.
Qed.

Lemma run_calls_total self ms w : ∃ w', run_calls self ms w = (Ok self, w').
Proof.
  revert w. induction ms as [|m ms IH]; intros w; [by eexists|].
  destruct (invoke_run self m w) as [w1 H1].
  destruct (IH w1) as [w2 H2].
  exists w2. cbn [run_calls]. by rewrite (bind_Ok _ _ _ _ _ H1).
Qed.

Lemma run_calls_snoc self ms m w w1 :
  run_calls self ms w = (Ok self, w1) →
  run_calls self (ms ++ [m]) w = invoke self m w1.
Proof.
  revert w. induction ms as [|m0 ms IH]; intros w H.
  - cbn in H. inversion H; subst. cbn [app run_calls].
    destruct (invoke_run self m w1) as [w2 H2].
    by rewrite (bind_Ok _ _ _ _ _ H2).
  - change ((m0 :: ms) ++ [m]) with (m0 :: (ms ++ [m])).
    cbn [run_calls] in *.
    destruct (invoke_run self m0 w) as [w0 H0].
    rewrite (bind_Ok _ _ _ _ _ H0) in H.
    rewrite (bind_Ok _ _ _ _ _ H0). by apply IH.
Qed.

(** C8 as the code has it: through any sequence of [use], [setBool],
    [setInt] and [setFloat] calls the object is handed on with its [ID]
    unchanged, and a uniform-set call made after the sequence does one
    of three things to the GL context: it leaves it as it is; or the
    driver rejects the call, which changes no object and records an
    error code in the error flag; or it replaces one value, that of the
    uniform of the CURRENT program at the location that the name, read
    as a C string, has in the program [ID].  When the current program is
    the program [ID], this is the uniform found under that name; nothing
    else in the context changes. *)
Theorem calls_keep_identity_and_frame self ms name arg w :
  ∃ w1 w2,
    run_calls self ms w = (Ok self, w1) ∧
    run_calls self (ms ++ [SetUniform name arg]) w = (Ok self, w2) ∧
    (gl w2 = gl w1 ∨
     (∃ e, gl w2 = record_error e (gl w1)) ∨
     ∃ po u val,
       programs (gl w1) !! current_program (gl w1) = Some po ∧
       (0 ≤ glGetUniformLocation (Shader.ID self) (c_str name) (gl w1))%Z ∧
       po_uniforms po !!
         Z.to_nat (glGetUniformLocation (Shader.ID self) (c_str name) (gl w1)) =
         Some u ∧
       (current_program (gl w1) = Shader.ID self →
        names_uniform (c_str name) u = true) ∧
       gl w2 =
       set_program (current_program (gl w1))
         {| po_attached := po_attached po;
            po_link_status := po_link_status po;
            po_info_log := po_info_log po;
            po_uniforms :=
              <[Z.to_nat (glGetUniformLocation (Shader.ID self) (c_str name) (gl w1)) :=
                  set_value val u]> (po_uniforms po) |} (gl w1)).
Proof.
  destruct (run_calls_total self ms w) as [w1 H1].
  exists w1. eexists. split; [exact H1|].
  rewrite (run_calls_snoc _ _ _ _ _ H1). unfold invoke.
  erewrite bind_Ok by apply set_uniform_run.
  split; [reflexivity|]. cbn [gl].
  set (loc := glGetUniformLocation (Shader.ID self) (c_str name) (gl w1)).
  destruct (programs (gl w1) !! Shader.ID self) as [pi|] eqn:Hid;
    [destruct (po_link_status pi) eqn:Hlink|].
  - (* the program of the object is linked: the lookup is accepted *)
    rewrite (program_query_linked _ _ _ Hid Hlink).
    destruct (write_uniform_frame (stored arg) loc (gl w1))
      as [Hsame | [Herr | (po & u & val & Hp & Hge & Hu & _ & Hw)]];
      [by left | by right; left |].
    right. right. exists po, u, val.
    split; [exact Hp|]. split; [exact Hge|]. split; [exact Hu|].
    split; [|exact Hw].
    intros Hcur. rewrite Hcur, Hid in Hp. injection Hp as <-.
    unfold loc in Hge, Hu.
    rewrite (glGetUniformLocation_linked _ _ _ _ Hid Hlink) in Hge, Hu.
    destruct (location_of_found _ _ Hge) as (u' & Hu' & Hname).
    congruence.
  - (* not linked: the lookup is rejected and answers -1 *)
    destruct (program_query_rejected (Shader.ID self) (gl w1))
      as (Hloc & e & He & Hq & _).
    { intros po Hpo. congruence. }
    unfold loc. rewrite Hloc, Hq.
    rewrite write_uniform_kept by (by apply record_error_sets).
    right. left. by exists e.
  - destruct (program_query_rejected (Shader.ID self) (gl w1))
      as (Hloc & e & He & Hq & _).
    { intros po Hpo. congruence. }
    unfold loc. rewrite Hloc, Hq.
    rewrite write_uniform_kept by (by apply record_error_sets).
    right. left. by exists e.
Qed.


(** *** Further properties of [use] and the setters *)

Lemma invoke_same_shape self m w :
  ∃ w', invoke self m w = (Ok self, w') ∧
        same_shape (gl w) (gl w') ∧ files w' = files w ∧ cout w' = cout w.
Proof.
  destruct m as [|name arg].
  - eexists. split; [reflexivity|]. cbn [gl files cout].
    split; [apply glUseProgram_same_shape | done].
  - unfold invoke. erewrite bind_Ok by apply set_uniform_run.
    eexists. split; [reflexivity|]. cbn [gl files cout].
    split; [|done]. apply set_uniform_same_shape.
Qed.

(** X8: whatever sequence of [use], [setBool], [setInt] and [setFloat]
    calls is made on an object, the shader objects are untouched, no
    program appears or disappears, and every program keeps its attached
    shaders, link status, info log and the names and types of its
    uniforms; so every uniform keeps its location.  Nothing is printed
    and no file is touched. *)
Theorem calls_preserve_shape self ms w :
  ∃ w',
    run_calls self ms w = (Ok self, w') ∧
    same_shape (gl w) (gl w') ∧
    files w' = files w ∧
    cout w' = cout w ∧
    ∀ p name,
      glGetUniformLocation p name (gl w') = glGetUniformLocation p name (gl w).
Proof.
  assert (H : ∃ w', run_calls self ms w = (Ok self, w') ∧
                    same_shape (gl w) (gl w') ∧
                    files w' = files w ∧ cout w' = cout w).
  { revert w. induction ms as [|m ms IH]; intros w.
    - exists w. split; [reflexivity|]. split; [apply same_shape_refl | done].
    - destruct (invoke_same_shape self m w) as (w1 & H1 & Hs1 & Hf1 & Ho1).
      destruct (IH w1) as (w2 & H2 & Hs2 & Hf2 & Ho2).
      exists w2. cbn [run_calls]. rewrite (bind_Ok _ _ _ _ _ H1).
      split; [exact H2|]. split; [by eapply same_shape_trans|].
      split; congruence. }
  destruct H as (w' & Hrun & Hshape & Hf & Ho).
  exists w'. split; [exact Hrun|]. split; [exact Hshape|].
  split; [exact Hf|]. split; [exact Ho|].
  intros p name. by apply same_shape_location.
Qed.

(** X9: [use] followed by a uniform-set call works from any binding
    state.  When the program of the object is linked and [name], read
    as a C string, finds one of its active uniforms, then after [use]
    and the set call the driver reports for that uniform the value the
    write stores for its type; when the driver rejects the write
    ([setInt] or [setBool] on a [float], [setFloat] on an [int] or a
    sampler, [setInt] on a sampler with a number that is no texture
    unit) it reports the old value, and the error flag holds the code of
    the rejection unless it held one before. *)
Theorem use_then_set_reads_back self name arg po w :
  programs (gl w) !! Shader.ID self = Some po →
  po_link_status po = true →
  (∃ u, u ∈ po_uniforms po ∧ names_uniform (c_str name) u = true) →
  ∃ w' u,
    (Shader.use self ;; set_uniform self name arg) w = (Ok tt, w') ∧
    po_uniforms po !! Z.to_nat (location_of (c_str name) (po_uniforms po)) =
      Some u ∧
    names_uniform (c_str name) u = true ∧
    glGetUniform (Shader.ID self)
      (glGetUniformLocation (Shader.ID self) (c_str name) (gl w')) (gl w') =
    Some (value_after (stored arg (u_type u)) (u_value u)) ∧
    error_flag (gl w') = flag_after (stored arg (u_type u)) (error_flag (gl w)).
Proof.
  intros Hp Hl Hin.
  destruct (use_binds_linked_program self po w Hp Hl)
    as (w1 & Huse & Hcur & Hprogs & _ & Herr).
  erewrite bind_Ok by exact Huse.
  rewrite set_uniform_run.
  pose proof (location_of_present _ _ Hin) as Hge.
  destruct (location_of_found _ _ Hge) as (u & Hu & Hname).
  eexists _, u. split; [reflexivity|]. split; [exact Hu|]. split; [exact Hname|].
  cbn [gl].
  assert (Hp1 : programs (gl w1) !! Shader.ID self = Some po)
    by (by rewrite Hprogs).
  rewrite (program_query_linked _ _ _ Hp1 Hl).
  rewrite (same_shape_location _ _ _ _
             (write_uniform_same_shape (stored arg) _ (gl w1))).
  rewrite (glGetUniformLocation_linked _ _ _ _ Hp1 Hl).
  set (loc := location_of (c_str name) (po_uniforms po)) in *.
  rewrite <- Herr. rewrite <- Hcur in Hp1.
  destruct (stored arg (u_type u)) as [val|e] eqn:Hs; cbn [value_after flag_after].
  - rewrite (write_uniform_accepted _ _ _ _ _ _ Hp1 Hge Hu Hs).
    rewrite Hcur. split; [by apply glGetUniform_written | reflexivity].
  - rewrite (write_uniform_rejected _ _ _ _ _ _ Hp1 Hge Hu Hs).
    destruct (record_error_objects e (gl w1)) as (_ & Hpe & _).
    split.
    + unfold glGetUniform. rewrite Hpe, <- Hcur, Hp1.
      destruct (Z.ltb_spec loc 0); [lia|].
      cbn [mbind option_bind]. by rewrite Hu.
    + rewrite record_error_flag. by destruct (error_flag (gl w1)).
Qed.

Lemma write_uniform_twice store loc c :
  write_uniform store loc (write_uniform store loc c) = write_uniform store loc c.
Proof.
  assert (Hagain : ∀ e,
    (∀ c', programs c' = programs c → current_program c' = current_program c →
           write_uniform store loc c' = record_error e c') →
    write_uniform store loc (record_error e c) = record_error e c).
  { intros e Hbranch.
    destruct (record_error_objects e c) as (_ & Hpe & Hce).
    rewrite (Hbranch _ Hpe Hce). apply record_error_idem. }
  unfold write_uniform at 2 3.
  destruct (programs c !! current_program c) as [po|] eqn:Hp.
  2: { apply Hagain. intros c' Hp' Hc'. unfold write_uniform.
       by rewrite Hp', Hc', Hp. }
  destruct (Z.eqb_spec loc (-1)) as [Heq|Hne].
  { unfold write_uniform. rewrite Hp. by destruct (Z.eqb_spec loc (-1)). }
  destruct (Z.ltb_spec loc 0) as [Hlt|Hge].
  { apply Hagain. intros c' Hp' Hc'. unfold write_uniform.
    rewrite Hp', Hc', Hp.
    destruct (Z.eqb_spec loc (-1)); [done|].
    by destruct (Z.ltb_spec loc 0); [|lia]. }
  destruct (po_uniforms po !! Z.to_nat loc) as [u|] eqn:Hu.
  2: { apply Hagain. intros c' Hp' Hc'. unfold write_uniform.
       rewrite Hp', Hc', Hp.
       destruct (Z.eqb_spec loc (-1)); [done|].
       destruct (Z.ltb_spec loc 0); [lia|]. by rewrite Hu. }
  destruct (store (u_type u)) as [val|e] eqn:Hs.
  2: { apply Hagain. intros c' Hp' Hc'.
       apply (write_uniform_rejected _ _ _ po u); try done.
       by rewrite Hp', Hc'. }
  set (po1 := {| po_attached := po_attached po;
                 po_link_status := po_link_status po;
                 po_info_log := po_info_log po;
                 po_uniforms :=
                   <[Z.to_nat loc := set_value val u]> (po_uniforms po) |}).
  rewrite (write_uniform_accepted store loc
             (set_program (current_program c) po1 c) po1 (set_value val u) val).
  - unfold set_program, po1.
    cbn [shaders programs current_program error_flag
         po_attached po_link_status po_info_log po_uniforms].
    rewrite insert_insert_eq, list_insert_insert_eq. reflexivity.
  - unfold set_program. cbn [programs current_program].
    by rewrite lookup_insert_eq.
  - done.
  - unfold po1. cbn [po_uniforms]. apply list_lookup_insert_eq.
    by eapply lookup_lt_Some.
  - cbn [set_value u_type]. exact Hs.
Qed.

(** X10: a uniform-set call is idempotent on the GL context, error flag
    included: the same call made a second time changes nothing. *)
Theorem set_uniform_idempotent self name arg w :
  ∃ w1 w2,
    set_uniform self name arg w = (Ok tt, w1) ∧
    set_uniform self name arg w1 = (Ok tt, w2) ∧
    gl w2 = gl w1.
Proof.
  eexists _, _. split; [apply set_uniform_run|].
  split; [apply set_uniform_run|]. cbn [gl].
  rewrite (same_shape_location _ _ _ _ (set_uniform_same_shape self name arg w)).
  set (loc := glGetUniformLocation (Shader.ID self) (c_str name) (gl w)).
  destruct (programs (gl w) !! Shader.ID self) as [pi|] eqn:Hid;
    [destruct (po_link_status pi) eqn:Hlink|].
  - (* linked: both lookups are accepted, and the write is idempotent *)
    rewrite (program_query_linked _ _ _ Hid Hlink).
    destruct (write_uniform_same_shape (stored arg) loc (gl w)) as [_ Hsh].
    specialize (Hsh (Shader.ID self)). rewrite Hid in Hsh.
    destruct (programs (write_uniform (stored arg) loc (gl w)) !! Shader.ID self)
      as [pi'|] eqn:Hid'; [|done].
    destruct Hsh as (_ & Hl' & _).
    rewrite (program_query_linked _ _ _ Hid') by congruence.
    apply write_uniform_twice.
  - (* not linked: the first call sets the flag, the second finds it set *)
    destruct (program_query_rejected (Shader.ID self) (gl w))
      as (Hloc & e & He & Hq & _).
    { intros po Hpo. congruence. }
    unfold loc. rewrite (Hloc (c_str name)), Hq.
    pose proof (record_error_sets e (gl w) He) as Hset.
    rewrite (write_uniform_kept _ _ Hset).
    rewrite (program_query_kept _ _ _ Hset).
    by apply write_uniform_kept.
  - destruct (program_query_rejected (Shader.ID self) (gl w))
      as (Hloc & e & He & Hq & _).
    { intros po Hpo. congruence. }
    unfold loc. rewrite (Hloc (c_str name)), Hq.
    pose proof (record_error_sets e (gl w) He) as Hset.
    rewrite (write_uniform_kept _ _ Hset).
    rewrite (program_query_kept _ _ _ Hset).
    by apply write_uniform_kept.
Qed.

(** X11: a uniform-set call never changes what the driver reports for
    a name that has another location in the program of the object than
    the name that is set, whether that program is current or not. *)
Theorem set_uniform_keeps_other_names self name other arg w :
  glGetUniformLocation (Shader.ID self) other (gl w) ≠
  glGetUniformLocation (Shader.ID self) (c_str name) (gl w) →
  ∃ w',
    set_uniform self name arg w = (Ok tt, w') ∧
    glGetUniformLocation (Shader.ID self) other (gl w') =
    glGetUniformLocation (Shader.ID self) other (gl w) ∧
    glGetUniform (Shader.ID self)
      (glGetUniformLocation (Shader.ID self) other (gl w')) (gl w') =
    glGetUniform (Shader.ID self)
      (glGetUniformLocation (Shader.ID self) other (gl w)) (gl w).
Proof.
  intros Hne. eexists. split; [apply set_uniform_run|]. cbn [gl].
  rewrite (same_shape_location _ _ _ _ (set_uniform_same_shape self name arg w)).
  split; [reflexivity|].
  set (loc := glGetUniformLocation (Shader.ID self) (c_str name) (gl w)) in *.
  set (loc' := glGetUniformLocation (Shader.ID self) other (gl w)) in *.
  set (c1 := program_query true (Shader.ID self) (gl w)).
  destruct (program_query_objects true (Shader.ID self) (gl w))
    as (_ & Hp1 & Hc1). fold c1 in Hp1, Hc1.
  assert (Hq : glGetUniform (Shader.ID self) loc' c1 =
               glGetUniform (Shader.ID self) loc' (gl w))
    by (unfold glGetUniform; by rewrite Hp1).
  rewrite <- Hq.
  destruct (write_uniform_frame (stored arg) loc c1)
    as [-> | [[e ->] | (po & u & val & Hp & Hge & Hu & _ & ->)]]; [done| |].
  - destruct (record_error_objects e c1) as (_ & Hpe & _).
    unfold glGetUniform. by rewrite Hpe.
  - unfold glGetUniform, set_program. cbn [programs].
    destruct (Z.ltb_spec loc' 0) as [|Hge2]; [done|].
    destruct (decide (Shader.ID self = current_program c1)) as [Heq|Hdiff].
    + rewrite <- Heq in *. rewrite lookup_insert_eq, Hp.
      cbn [mbind option_bind po_uniforms].
      rewrite list_lookup_insert_ne; [done|]. lia.
    + by rewrite lookup_insert_ne.
Qed.

Lemma c_str_idem (s : string) : c_str (c_str s) = c_str s.
Proof.
  induction s as [|c s IH]; [reflexivity|]. cbn [c_str].
  destruct (Ascii.eqb c zero) eqn:E; [reflexivity|].
  cbn [c_str]. by rewrite E, IH.
Qed.

Lemma c_str_NUL_free (s : string) : NUL_free s = true → c_str s = s.
Proof.
  induction s as [|c s IH]; intros Hfree; [reflexivity|].
  cbn [NUL_free] in Hfree. apply andb_true_iff in Hfree as [Hc Hs].
  apply negb_true_iff in Hc. cbn [c_str]. by rewrite Hc, (IH Hs).
Qed.

(** X18: what follows a NUL character in a uniform name never reaches
    the driver.  A uniform-set call with a name is the same computation
    as the call with the name cut at its first NUL: same outcome, same
    GL context, same output and the same driver calls, which carry the
    cut name. *)
Theorem uniform_name_ends_at_first_NUL self name arg w :
  set_uniform self name arg w = set_uniform self (c_str name) arg w ∧
  (∀ rest, NUL_free name = true →
     set_uniform self (name +:+ String zero rest) arg w =
     set_uniform self name arg w) ∧
  ∃ w' loc,
    set_uniform self name arg w = (Ok tt, w') ∧
    calls w' = calls w ++
      [EvGetUniformLocation (Shader.ID self) (c_str name) loc;
       write_event loc arg].
Proof.
  split; [|split].
  - rewrite !set_uniform_run. by rewrite c_str_idem.
  - intros rest Hfree. rewrite !set_uniform_run.
    rewrite (c_str_before_NUL _ rest Hfree).
    by rewrite (c_str_NUL_free _ Hfree).
  - eexists _, _. split; [apply set_uniform_run | reflexivity].
Qed.

(** Every call on an object whose program is not linked is rejected
    with [GL_INVALID_OPERATION] and changes nothing else. *)
Lemma unlinked_calls_rejected self ms po w :
  Shader.ID self ≠ 0%N →
  programs (gl w) !! Shader.ID self = Some po →
  po_link_status po = false →
  ∃ w', run_calls self ms w = (Ok self, w') ∧
        gl w' = match ms with
                | [] => gl w
                | _ :: _ => record_error GL_INVALID_OPERATION (gl w)
                end.
Proof.
  intros Hnz. revert w. induction ms as [|m ms IH]; intros w Hp Hl.
  - by exists w.
  - assert (H1 : ∃ w1, invoke self m w = (Ok self, w1) ∧
                       gl w1 = record_error GL_INVALID_OPERATION (gl w)).
    { destruct m as [|name arg].
      - eexists. split; [reflexivity|]. cbn [gl]. unfold glUseProgram.
        destruct (N.eqb_spec (Shader.ID self) 0); [done|].
        by rewrite Hp, Hl.
      - unfold invoke. erewrite bind_Ok by apply set_uniform_run.
        eexists. split; [reflexivity|]. cbn [gl].
        destruct (program_query_rejected (Shader.ID self) (gl w))
          as (Hloc & e & He & Hq & Hop).
        { intros po' Hpo'. congruence. }
        rewrite (Hloc (c_str name)), Hq.
        rewrite (Hop (ex_intro _ po Hp)).
        apply write_uniform_kept. by apply record_error_sets. }
    destruct H1 as (w1 & H1 & Hgl1).
    destruct (record_error_objects GL_INVALID_OPERATION (gl w)) as (_ & Hpe & _).
    destruct (IH w1) as (w2 & H2 & Hgl2); [by rewrite Hgl1, Hpe | exact Hl |].
    exists w2. cbn [run_calls]. rewrite (bind_Ok _ _ _ _ _ H1).
    split; [exact H2|]. rewrite Hgl2.
    destruct ms; [exact Hgl1|].
    rewrite Hgl1. by apply record_error_twice.
Qed.

End Uniforms.
(** ** Concrete runs *)

Section Runs.
Import GL.
#[local] Existing Instance Demo.driver.

Lemma diagnostics_follow_statuses_witness :
  ∃ sh w',
    Shader.Shader "shader.vs" "shader.fs" Demo.start = (Ok sh, w') ∧
    cout w' = [] ∧
    po_link_status <$> programs (gl w') !! Shader.ID sh = Some true.
Proof.
  destruct (@diagnostics_follow_statuses Demo.driver "shader.vs" "shader.fs" Demo.start)
    as (sh & w' & out & v & f & po & okv & okf & Hrun & Hout & Hp & _ & _ & _
        & _ & _ & _ & Hsucc).
  assert (Hok : out = [] ∧ okv = true ∧ okf = true ∧ po_link_status po = true)
    by (apply (Hsucc Demo.vertex_ok Demo.fragment_int); vm_compute; reflexivity).
  destruct Hok as (Hnil & _ & _ & Hl).
  exists sh, w'. split; [exact Hrun|]. split.
  - rewrite Hout, Hnil. reflexivity.
  - rewrite Hp. cbn. by rewrite Hl.
Defined.



(** C4 as stated fails: the vertex source lacks a semicolon, the
    fragment source is valid and the corrected pair compiles and links,
    yet the build prints a link diagnostic after the one compile
    diagnostic. *)
Lemma one_broken_stage_counterexample :
  let r := Shader.Shader "broken.vs" "shader.fs" Demo.start in
  (glsl_compile GL_VERTEX_SHADER Demo.vertex_bad).1 = false ∧
  (glsl_compile GL_VERTEX_SHADER Demo.vertex_ok).1 = true ∧
  (glsl_compile GL_FRAGMENT_SHADER Demo.fragment_int).1 = true ∧
  (glsl_link
     [(GL_VERTEX_SHADER, Demo.vertex_ok);
      (GL_FRAGMENT_SHADER, Demo.fragment_int)]).1.1 = true ∧
  r.1 = Ok {| Shader.ID := 3 |} ∧
  count (is_compile_diagnostic "VERTEX") (cout r.2) = 1 ∧
  count is_any_compile_diagnostic (cout r.2) = 1 ∧
  count is_link_diagnostic (cout r.2) = 1 ∧
  count is_link_diagnostic (cout r.2) ≠ 0.
Proof. vm_compute. repeat split; discriminate. Qed.

Lemma one_broken_stage_is_reported_twice_witness :
  files Demo.start !! "broken.vs" = Some (File Demo.vertex_bad) ∧
  files Demo.start !! "shader.fs" = Some (File Demo.fragment_int) ∧
  (glsl_compile GL_VERTEX_SHADER (c_str Demo.vertex_bad)).1 = false ∧
  (glsl_compile GL_FRAGMENT_SHADER (c_str Demo.fragment_int)).1 = true ∧
  ∃ sh w' out,
    Shader.Shader "broken.vs" "shader.fs" Demo.start = (Ok sh, w') ∧
    cout w' = out ∧
    count is_any_compile_diagnostic out = 1 ∧
    count is_link_diagnostic out = 1.
Proof.
  repeat (split; [vm_compute; reflexivity|]).
  destruct (@one_broken_stage_is_reported_twice Demo.driver GL_VERTEX_SHADER
              "broken.vs" "shader.fs" Demo.vertex_bad Demo.fragment_int Demo.start)
    as (sh & w' & out & po & Hrun & Hout & Hc & _ & _ & _ & Hl);
    [vm_compute; reflexivity | vm_compute; reflexivity
     | vm_compute; reflexivity | vm_compute; reflexivity |].
  exists sh, w', out. split; [exact Hrun|]. split; [exact Hout|].
  split; [exact Hc | exact Hl].
Defined.

Lemma vertex_read_failure_witness :
  files Demo.start !! "missing.vs" = None ∧
  ∃ sh w' evs,
    Shader.Shader "missing.vs" "shader.fs" Demo.start = (Ok sh, w') ∧
    calls w' = evs ∧
    List.filter is_file_event evs = [EvOpen "missing.vs"] ∧
    count is_file_diagnostic (cout w') = 1.
Proof.
  split; [vm_compute; reflexivity|].
  destruct (@vertex_read_failure_skips_fragment Demo.driver
              "missing.vs" "shader.fs" Demo.start)
    as (sh & w' & out & evs & v & f & po & sv & sf & Hrun & Hout & Hev & Hf
        & _ & _ & _ & _ & _ & _ & _ & _ & Hc);
    [vm_compute; reflexivity|].
  exists sh, w', evs. split; [exact Hrun|]. split; [exact Hev|].
  split; [exact Hf|]. rewrite Hout. exact Hc.
Defined.

Lemma in_use_program :
  programs (gl Demo.in_use) !! Shader.ID Demo.good = Some (Demo.good_program 0) ∧
  current_program (gl Demo.in_use) = Shader.ID Demo.good ∧
  error_flag (gl Demo.in_use) = GL_NO_ERROR.
Proof. vm_compute. done. Qed.

Lemma absent_is_inactive : ¬ active_uniform 3 "absent" (gl Demo.in_use).
Proof.
  intros (po & Hp & _ & u & Hin & Hn).
  destruct in_use_program as (Hpo & _ & _). cbn [Shader.ID Demo.good] in Hpo.
  rewrite Hpo in Hp. inversion Hp; subst po.
  clear Hpo Hp. cbn in Hin. apply list_elem_of_singleton in Hin.
  subst u. vm_compute in Hn. discriminate Hn.
Qed.

(** C5 as stated fails in three ways.  With no program current, the
    write of a name that is no uniform is rejected and the error flag
    changes.  With a program that did not link, the lookup itself is
    rejected.  And a name that is no uniform as a string can be one as a
    C string: ["u_name"], a NUL and ["junk"] is found under no name, yet
    [setInt] with it writes ["u_name"]. *)
Lemma missing_uniform_write_counterexample :
  let unbound := (Shader.setFloat Demo.good "absent" 1065353216 Demo.built).2 in
  let failed := (Shader.setInt Demo.good "absent" 5 Demo.broken_built).2 in
  let name := "u_name" +:+ String zero "junk" in
  let written := (Shader.setInt Demo.good name 5 Demo.in_use).2 in
  (glGetUniformLocation 3 "absent" (gl Demo.built) = (-1)%Z ∧
   current_program (gl Demo.built) = 0%N ∧
   error_flag (gl Demo.built) = GL_NO_ERROR ∧
   error_flag (gl unbound) = GL_INVALID_OPERATION) ∧
  (glGetProgramiv 3 (gl Demo.broken_built) = Some false ∧
   error_flag (gl Demo.broken_built) = GL_NO_ERROR ∧
   error_flag (gl failed) = GL_INVALID_OPERATION) ∧
  (glGetUniformLocation 3 name (gl Demo.in_use) = (-1)%Z ∧
   current_program (gl Demo.in_use) = 3%N ∧
   glGetUniform 3 0 (gl Demo.in_use) = Some (VInt 0) ∧
   glGetUniform 3 0 (gl written) = Some (VInt 5) ∧
   gl written ≠ gl Demo.in_use).
Proof.
  vm_compute. repeat split; try discriminate.
Qed.

Lemma missing_uniform_write_witness :
  ¬ active_uniform 3 "absent" (gl Demo.in_use) ∧
  current_program (gl Demo.in_use) = 3%N ∧
  ∃ w',
    Shader.setFloat Demo.good "absent" 1065353216 Demo.in_use = (Ok tt, w') ∧
    gl w' = gl Demo.in_use ∧ cout w' = cout Demo.in_use.
Proof.
  destruct in_use_program as (Hp & Hcur & _).
  split; [exact absent_is_inactive|]. split; [exact Hcur|].
  destruct (missing_uniform_write_is_discarded Demo.good "absent"
              (FloatArg 1065353216) Demo.in_use)
    as (w' & Hrun & _ & Hout & _ & Hsame).
  exists w'. split; [exact Hrun|]. split; [|exact Hout].
  apply (Hsame (Demo.good_program 0) Hp).
  - reflexivity.
  - rewrite Hcur, Hp. by eexists.
  - exact absent_is_inactive.
Defined.

(** C6 as stated fails: the program is linked and ["u_name"] is an
    active [int] uniform, but the program was never made current, so
    the write does not reach it and the query returns 0.  It also fails
    for a current program whose ["u_name"] is a [float]: the driver
    rejects the integer write. *)
Lemma setInt_reads_back_counterexample :
  let w := (Demo.set_without_use Demo.start).2 in
  let w' := (Demo.set_float_uniform Demo.start).2 in
  (Demo.set_without_use Demo.start).1 = Ok Demo.good ∧
  programs (gl w) !! 3%N = Some (Demo.good_program 0) ∧
  glGetUniformLocation 3 "u_name" (gl w) = 0%Z ∧
  glGetUniform 3 (glGetUniformLocation 3 "u_name" (gl w)) (gl w) = Some (VInt 0) ∧
  glGetUniform 3 (glGetUniformLocation 3 "u_name" (gl w)) (gl w) ≠ Some (VInt 5) ∧
  (Demo.set_float_uniform Demo.start).1 = Ok Demo.good ∧
  current_program (gl w') = 3%N ∧
  glGetUniformLocation 3 "u_name" (gl w') = 0%Z ∧
  glGetUniform 3 (glGetUniformLocation 3 "u_name" (gl w')) (gl w') = Some (VFloat 0).
Proof. vm_compute. repeat split; discriminate. Qed.

Lemma setInt_reads_back_witness :
  programs (gl Demo.in_use) !! 3%N = Some (Demo.good_program 0) ∧
  current_program (gl Demo.in_use) = 3%N ∧
  ∃ w',
    Shader.setInt Demo.good "u_name" 5 Demo.in_use = (Ok tt, w') ∧
    glGetUniform 3 (glGetUniformLocation 3 "u_name" (gl w')) (gl w') =
    Some (VInt 5).
Proof.
  destruct in_use_program as (Hp & Hc & _).
  split; [exact Hp|]. split; [exact Hc|].
  destruct (setInt_reads_back Demo.good "u_name" 5 (Demo.good_program 0)
              Demo.in_use Hp) as (w' & Hrun & Hget & _).
  - reflexivity.
  - eexists. split; [apply list_elem_of_here | reflexivity].
  - intros u Hu _. cbn in Hu. apply list_elem_of_singleton in Hu.
    subst u. by left.
  - exact Hc.
  - exists w'. split; [exact Hrun | exact Hget].
Defined.

(** C8 as stated fails: with a second program current, [setInt] on the
    first object changes a uniform of the second program, and not even
    the one of that name: ["u_name"] has location 0 in program 3, and
    location 0 of program 6 is ["first"].  And with its own program
    current, [setInt] with ["u_name"], a NUL and ["junk"], which names no
    uniform, changes the uniform ["u_name"]. *)
Lemma calls_frame_counterexample :
  let w1 := (Demo.two_programs Demo.start).2 in
  let w2 := (Shader.setInt Demo.good "u_name" 5 w1).2 in
  let name := "u_name" +:+ String zero "junk" in
  let w3 := (Shader.setInt Demo.good name 5 Demo.in_use).2 in
  ((Demo.two_programs Demo.start).1 = Ok (Demo.good, {| Shader.ID := 6 |}) ∧
   current_program (gl w1) = 6%N ∧
   glGetUniformLocation 3 "u_name" (gl w1) = 0%Z ∧
   glGetUniformLocation 6 "first" (gl w1) = 0%Z ∧
   glGetUniform 6 0 (gl w1) = Some (VInt 0) ∧
   glGetUniform 6 0 (gl w2) = Some (VInt 5) ∧
   programs (gl w2) !! 6%N ≠ programs (gl w1) !! 6%N ∧
   programs (gl w2) !! 3%N = programs (gl w1) !! 3%N) ∧
  (current_program (gl Demo.in_use) = 3%N ∧
   glGetUniformLocation 3 name (gl Demo.in_use) = (-1)%Z ∧
   glGetUniformLocation 3 "u_name" (gl Demo.in_use) = 0%Z ∧
   glGetUniform 3 0 (gl Demo.in_use) = Some (VInt 0) ∧
   glGetUniform 3 0 (gl w3) = Some (VInt 5)).
Proof. vm_compute. repeat split; discriminate. Qed.

Lemma calls_keep_identity_and_frame_witness :
  ∃ w1 w2,
    run_calls Demo.good [Use] Demo.built = (Ok Demo.good, w1) ∧
    run_calls Demo.good [Use; SetUniform "u_name" (IntArg 5)] Demo.built =
    (Ok Demo.good, w2) ∧
    current_program (gl w1) = 3%N ∧
    glGetUniform 3 0 (gl w2) = Some (VInt 5).
Proof.
  destruct (calls_keep_identity_and_frame Demo.good [Use] "u_name" (IntArg 5)
              Demo.built) as (w1 & w2 & H1 & H2 & _).
  exists w1, w2. split; [exact H1|]. split; [exact H2|].
  assert (E1 : w1 = (run_calls Demo.good [Use] Demo.built).2)
    by (by rewrite H1).
  assert (E2 : w2 = (run_calls Demo.good ([Use] ++ [SetUniform "u_name" (IntArg 5)])
                       Demo.built).2)
    by (by rewrite H2).
  rewrite E1, E2. split; vm_compute; reflexivity.
Defined.

End Runs.
(** ** The inline build of [2_triangle.cpp] *)

Section TriangleBuild.
Context {D : GL.Driver}.
Import GL.

Ltac run_step lem :=
  erewrite bind_Ok; [ | apply lem ]; cbn beta;
  cbn [files open_streams gl cout calls].

Lemma glGetShaderiv_run s w :
  Call.glGetShaderiv s w =
  (Ok (glGetShaderiv s (gl w)),
   {| files := files w; open_streams := open_streams w;
      gl := shader_query s (gl w); cout := cout w;
      calls := calls w ++ [EvGetShaderiv s] |}).
Proof. reflexivity. Qed.

Lemma glGetProgramiv_run p w :
  Call.glGetProgramiv p w =
  (Ok (glGetProgramiv p (gl w)),
   {| files := files w; open_streams := open_streams w;
      gl := program_query false p (gl w); cout := cout w;
      calls := calls w ++ [EvGetProgramiv p] |}).
Proof. reflexivity. Qed.

Lemma report_shader_run (msg : string → string) s o c (status : bool) fs os out ev :
  match Some status with
  | Some false =>
      infoLog <- Call.glGetShaderInfoLog s 512 ;;
      print (msg (default EmptyString infoLog))
  | _ => ret tt
  end {| files := fs; open_streams := os; gl := set_shader s o c;
         cout := out; calls := ev |} =
  (Ok tt,
   {| files := fs; open_streams := os; gl := set_shader s o c;
      cout := out ++
        (if status then [] else [msg (substring 0 511 (so_info_log o))]);
      calls := ev ++ (if status then [] else [EvGetShaderInfoLog s]) |}).
Proof.
  destruct status.
  - unfold ret. by rewrite !app_nil_r.
  - unfold Call.glGetShaderInfoLog, bind, log, gl_query, gl_update, print, ret.
    cbn [files open_streams gl cout calls].
    rewrite glGetShaderInfoLog_set, shader_query_set. reflexivity.
Qed.

Lemma report_program_run (msg : string → string) p o c (status : bool) fs os out ev :
  match Some status with
  | Some false =>
      infoLog <- Call.glGetProgramInfoLog p 512 ;;
      print (msg (default EmptyString infoLog))
  | _ => ret tt
  end {| files := fs; open_streams := os; gl := set_program p o c;
         cout := out; calls := ev |} =
  (Ok tt,
   {| files := fs; open_streams := os; gl := set_program p o c;
      cout := out ++
        (if status then [] else [msg (substring 0 511 (po_info_log o))]);
      calls := ev ++ (if status then [] else [EvGetProgramInfoLog p]) |}).
Proof.
  destruct status.
  - unfold ret. by rewrite !app_nil_r.
  - unfold Call.glGetProgramInfoLog, bind, log, gl_query, gl_update, print, ret.
    cbn [files open_streams gl cout calls].
    rewrite glGetProgramInfoLog_set, program_query_set. reflexivity.
Qed.

(** The inline build in closed form. *)
Lemma build_program_run vertexSource fragmentSource w :
  let vsrc := c_str vertexSource in
  let fsrc := c_str fragmentSource in
  let v := fresh (names (gl w)) in
  let f := fresh ({[ v ]} ∪ names (gl w)) in
  let p := fresh ({[ f ]} ∪ ({[ v ]} ∪ names (gl w))) in
  let sv := compiled GL_VERTEX_SHADER vsrc in
  let sf := compiled GL_FRAGMENT_SHADER fsrc in
  let po := linked v f vsrc fsrc in
  Triangle.build_program vertexSource fragmentSource w =
  (Ok p,
   {| files := files w; open_streams := open_streams w;
      gl := {| shaders := <[f := sf true]> (<[v := sv true]> (shaders (gl w)));
               programs := <[p := po]> (programs (gl w));
               current_program := current_program (gl w);
               error_flag := error_flag (gl w) |};
      cout := cout w ++
        Triangle.output
          (so_compile_status (sv true)) (substring 0 511 (so_info_log (sv true)))
          (so_compile_status (sf true)) (substring 0 511 (so_info_log (sf true)))
          (po_link_status po) (substring 0 511 (po_info_log po));
      calls := calls w ++
        build_calls v f p vsrc fsrc (so_compile_status (sv true))
                    (so_compile_status (sf true)) (po_link_status po) |}).
Proof.
  intros vsrc fsrc v f p sv sf po.
  destruct w as [fs os c0 out ev]. cbn [gl files open_streams cout calls] in *.
  destruct (build_names_distinct c0) as (Hvf & Hvp & Hfp & Hv_s & Hf_s & Hp_p).
  cbv zeta in Hvf, Hvp, Hfp, Hv_s, Hf_s, Hp_p.
  fold v in Hvf, Hvp, Hfp, Hv_s, Hf_s, Hp_p.
  fold f in Hvf, Hvp, Hfp, Hf_s, Hp_p. fold p in Hvp, Hfp, Hp_p.
  unfold Triangle.build_program.
  (* vertex shader *)
  run_step glCreateShader_run. change (fresh_name c0) with v.
  unfold Call.glShaderSource. run_step gl_update_run.
  rewrite glShaderSource_set.
  cbn [so_type so_source so_compile_status so_info_log so_delete_status].
  unfold Call.glCompileShader. run_step gl_update_run.
  rewrite glCompileShader_set.
  cbn [so_type so_source so_compile_status so_info_log so_delete_status].
  fold vsrc. change (set_shader v _ c0) with (set_shader v (sv false) c0).
  run_step glGetShaderiv_run. rewrite glGetShaderiv_set, shader_query_set.
  run_step report_shader_run.
  set (out1 := (out ++ _)%list). set (ev1 := ((_ ++ [EvGetShaderiv v]) ++ _)%list).
  (* fragment shader *)
  run_step glCreateShader_run.
  unfold fresh_name. rewrite names_set_shader. fold f.
  unfold Call.glShaderSource. run_step gl_update_run.
  rewrite glShaderSource_set.
  cbn [so_type so_source so_compile_status so_info_log so_delete_status].
  unfold Call.glCompileShader. run_step gl_update_run.
  rewrite glCompileShader_set.
  cbn [so_type so_source so_compile_status so_info_log so_delete_status].
  fold fsrc. change (set_shader f _ (set_shader v _ c0))
    with (set_shader f (sf false) (set_shader v (sv false) c0)).
  run_step glGetShaderiv_run. rewrite glGetShaderiv_set, shader_query_set.
  run_step report_shader_run.
  set (out2 := (out1 ++ _)%list). set (ev2 := ((_ ++ [EvGetShaderiv f]) ++ _)%list).
  remember (set_shader f (sf false) (set_shader v (sv false) c0)) as c2 eqn:Hc2.
  (* program *)
  assert (Hv2 : shaders c2 !! v = Some (sv false)).
  { rewrite Hc2. unfold set_shader; cbn. by rewrite lookup_insert_ne, lookup_insert_eq. }
  assert (Hf2 : shaders c2 !! f = Some (sf false)).
  { rewrite Hc2. unfold set_shader; cbn. by rewrite lookup_insert_eq. }
  run_step glCreateProgram_run.
  assert (Hp : fresh_name c2 = p)
    by (rewrite Hc2; unfold fresh_name; by rewrite !names_set_shader).
  rewrite Hp.
  unfold Call.glAttachShader. run_step gl_update_run.
  rewrite (glAttachShader_set p v _ c2); [ | eexists; exact Hv2 | cbn; set_solver ].
  cbn [po_attached po_link_status po_info_log po_uniforms app].
  run_step gl_update_run.
  rewrite (glAttachShader_set p f _ c2); [ | eexists; exact Hf2 | cbn; set_solver ].
  cbn [po_attached po_link_status po_info_log po_uniforms app].
  unfold Call.glLinkProgram. run_step gl_update_run.
  rewrite (glLinkProgram_set p v f (sv false) (sf false)) by done.
  change (set_program p _ c2) with (set_program p po c2).
  run_step glGetProgramiv_run. rewrite glGetProgramiv_set, program_query_set.
  run_step report_program_run.
  set (out3 := (out2 ++ _)%list). set (ev3 := ((_ ++ [EvGetProgramiv p]) ++ _)%list).
  (* deletion *)
  assert (Hp3 : programs (set_program p po c2) !! p = Some po)
    by (unfold set_program; cbn; by rewrite lookup_insert_eq).
  assert (Hatt : po_attached po = [v; f]) by apply linked_attached.
  unfold Call.glDeleteShader. run_step gl_update_run.
  rewrite (glDeleteShader_attached v (sv false) p po);
    [ | exact Hv2 | exact Hp3 | rewrite Hatt; set_solver ].
  run_step gl_update_run.
  rewrite (glDeleteShader_attached f (sf false) p po);
    [ | by (unfold set_shader; cbn; rewrite lookup_insert_ne by done)
      | exact Hp3 | rewrite Hatt; set_solver ].
  unfold ret. f_equal.
  subst c2 out3 out2 out1 ev3 ev2 ev1.
  f_equal.
  - unfold set_shader, set_program; cbn. f_equal.
    apply map_eq. intros i. rewrite !lookup_insert.
    repeat case_decide; try congruence; reflexivity.
  - unfold Triangle.output. by rewrite <- !app_assoc.
  - unfold build_calls. rewrite <- !app_assoc. cbn [app]. reflexivity.
Qed.

(** X12: the inline build of [2_triangle.cpp] and the part of the
    [Shader] constructor after the files are read do the same to the
    driver: for the same two sources they make the same driver calls in
    the same order, return the same program name and leave the same GL
    context; they print a statement for the same failed checks, with
    texts of their own and the log cut to 511 instead of 1023
    characters. *)
Theorem triangle_build_matches_Shader vertexSource fragmentSource w :
  ∃ p w1 w2 okv okf okl logv logf logl,
    Triangle.build_program vertexSource fragmentSource w = (Ok p, w1) ∧
    Shader.compile_and_link vertexSource fragmentSource w =
      (Ok {| Shader.ID := p |}, w2) ∧
    gl w1 = gl w2 ∧
    calls w1 = calls w2 ∧
    files w1 = files w2 ∧
    cout w1 = cout w ++
      Triangle.output okv (substring 0 511 logv) okf (substring 0 511 logf)
                      okl (substring 0 511 logl) ∧
    cout w2 = cout w ++
      build_output okv (substring 0 1023 logv) okf (substring 0 1023 logf)
                   okl (substring 0 1023 logl).
Proof.
  pose proof (build_program_run vertexSource fragmentSource w) as H1.
  pose proof (compile_and_link_run vertexSource fragmentSource w) as H2.
  cbv zeta in H1, H2.
  eexists _, _, _, _, _, _, _, _, _.
  split; [exact H1|]. split; [exact H2|].
  cbn [gl calls files cout].
  split; [reflexivity|]. split; [reflexivity|]. split; [reflexivity|].
  split; reflexivity.
Qed.

End TriangleBuild.

(** ** The window program *)

Section WindowProgram.
Import GLFW Window.
Variable P : platform.

(** One pass through the body of the loop. *)
Lemma frame_run (d : desk) :
  callback_set d = true →
  let e := arriving P (polls d) in
  let d' := (frame P d).2 in
  should_close d' = should_close d || escape d || close_requested e ∧
  escape d' = escape_down e ∧
  callback_set d' = true ∧
  polls d' = S (polls d) ∧
  frames_shown d' = S (frames_shown d) ∧
  printed d' = printed d ∧
  terminated d' = terminated d.
Proof.
  intros Hcb e d'. subst d'. destruct d as [t sc es cb n vp pr md].
  cbn in Hcb. subst cb. cbn [polls] in e.
  unfold frames_shown.
  destruct es;
    cbv [frame processInput glfwGetKey_escape_pressed glfwSetWindowShouldClose
         glClearColor glClear glfwSwapBuffers glfwPollEvents
         framebuffer_size_callback glViewport wbind wret made_call
         terminated should_close escape callback_set polls viewport printed made
         snd];
    fold e; destruct (resized e) as [[width height]|];
    cbv [terminated should_close escape callback_set polls viewport printed made snd];
    rewrite ?List.filter_app, ?List.length_app; cbn [List.filter List.length];
    rewrite ?orb_true_r, ?orb_false_r; cbn [orb];
    repeat split; try reflexivity; lia.
Qed.

Lemma render_loop_go fuel (d : desk) :
  should_close d = false →
  render_loop P (S fuel) d =
  render_loop P fuel (frame P (made_call WindowShouldClose d).2).2.
Proof.
  intros H. destruct d. cbn in H. subst.
  cbn [render_loop].
  unfold wbind at 1. unfold glfwWindowShouldClose, wbind at 1, made_call.
  cbn [should_close]. unfold wbind at 1.
  by destruct (frame P _).
Qed.

Lemma render_loop_stop fuel (d : desk) :
  should_close d = true →
  render_loop P (S fuel) d = (true, (made_call WindowShouldClose d).2).
Proof.
  intros H. destruct d. cbn in H. subst.
  cbn [render_loop]. reflexivity.
Qed.

(** The test of the condition changes nothing that the loop looks at. *)
Lemma tested (d : desk) :
  let d' := (made_call WindowShouldClose d).2 in
  should_close d' = should_close d ∧ escape d' = escape d ∧
  callback_set d' = callback_set d ∧ polls d' = polls d ∧
  frames_shown d' = frames_shown d ∧ printed d' = printed d ∧
  terminated d' = terminated d.
Proof.
  destruct d. unfold frames_shown, made_call. cbn.
  rewrite List.filter_app, List.length_app. cbn. repeat split; lia.
Qed.

(** One iteration: test and body. *)
Lemma iteration_run (d : desk) :
  callback_set d = true →
  let e := arriving P (polls d) in
  let d' := (frame P (made_call WindowShouldClose d).2).2 in
  should_close d' = should_close d || escape d || close_requested e ∧
  escape d' = escape_down e ∧
  callback_set d' = true ∧
  polls d' = S (polls d) ∧
  frames_shown d' = S (frames_shown d) ∧
  printed d' = printed d ∧
  terminated d' = terminated d.
Proof.
  intros Hcb.
  destruct (tested d) as (Hs & He & Hc & Hp & Hf & Hpr & Ht).
  cbv zeta in *.
  destruct (frame_run (made_call WindowShouldClose d).2) as
    (Hs' & He' & Hc' & Hp' & Hf' & Hpr' & Ht'); [congruence|].
  cbv zeta in *. rewrite Hp in *.
  repeat split; congruence.
Qed.

(** As long as only quiet events arrive, the loop goes on, one frame
    per poll. *)
Lemma render_loop_quiet (m fuel : nat) (d : desk) :
  running d →
  (∀ j, polls d ≤ j < polls d + m → quiet (arriving P j) = true) →
  ∃ d',
    render_loop P (m + fuel) d = render_loop P fuel d' ∧
    running d' ∧
    polls d' = polls d + m ∧
    frames_shown d' = frames_shown d + m ∧
    printed d' = printed d ∧
    terminated d' = terminated d.
Proof.
  revert d. induction m as [|m IH]; intros d Hrun Hq.
  - exists d. repeat split; try apply Hrun; lia.
  - destruct Hrun as (Hs & He & Hc).
    destruct (iteration_run d Hc) as (Hs' & He' & Hc' & Hp' & Hf' & Hpr' & Ht').
    cbv zeta in *.
    assert (Hq0 : quiet (arriving P (polls d)) = true) by (apply Hq; lia).
    unfold quiet in Hq0. apply andb_true_iff in Hq0 as [Hq1 Hq2].
    apply negb_true_iff in Hq1, Hq2.
    rewrite Hs, He, Hq2 in Hs'. rewrite Hq1 in He'. cbn [orb] in Hs'.
    set (d1 := (frame P (made_call WindowShouldClose d).2).2) in *.
    destruct (IH d1) as (d' & Hloop & Hrun' & Hp'' & Hf'' & Hpr'' & Ht'').
    { by repeat split. }
    { intros j Hj. apply Hq. lia. }
    exists d'. change (S m + fuel) with (S (m + fuel)).
    rewrite (render_loop_go _ d Hs). fold d1.
    split; [exact Hloop|]. split; [exact Hrun'|].
    repeat split; lia || congruence.
Qed.

Ltac run_main :=
  cbv [main glfwCreateWindow gladLoadGLLoader wbind wret glfwInit glfwWindowHint
       glfwMakeContextCurrent glfwSetFramebufferSizeCallback made_call wprint
       fresh_desk negb
       terminated should_close escape callback_set polls viewport printed made].

Lemma before_loop_run :
  window_created P = true → glad_loaded P = true →
  ∀ fuel, ∃ d0,
    main P fuel fresh_desk =
      (let r := render_loop P fuel d0 in
       if r.1 then (Some 0%Z, (glfwTerminate r.2).2) else (None, r.2)) ∧
    running d0 ∧ polls d0 = 0 ∧ frames_shown d0 = 0 ∧
    printed d0 = [] ∧ terminated d0 = false ∧ viewport d0 = None.
Proof.
  intros Hw Hg fuel.
  destruct (apple P) eqn:Ha; eexists; (split; [
    unfold main, glfwCreateWindow, gladLoadGLLoader; rewrite Ha, Hw, Hg;
    run_main; cbv zeta;
    match goal with |- ?L = ?R =>
      match L with context [render_loop P fuel ?D0] =>
        match R with context [render_loop P fuel ?E0] => unify E0 D0 end
      end
    end;
    destruct (render_loop P fuel _) as [[] d1]; cbn [fst snd];
    [ by destruct (glfwTerminate d1) | reflexivity ]
  | by repeat split ]).
Qed.

Lemma glfwTerminate_run (d : desk) :
  let d' := (glfwTerminate d).2 in
  terminated d' = true ∧ polls d' = polls d ∧
  frames_shown d' = frames_shown d ∧ printed d' = printed d.
Proof.
  destruct d. unfold frames_shown, glfwTerminate, wbind, made_call. cbn.
  rewrite List.filter_app, List.length_app. cbn. repeat split; lia.
Qed.

(** X13: when the window is created and the entry points are loaded,
    and the first events that are not quiet arrive with poll number [k],
    [main] returns 0 after terminating GLFW, having printed nothing.  A
    close request ends the loop at the next test, after [k + 1] frames;
    the escape key alone is seen by [processInput] only in the following
    iteration, which is still drawn in full: [k + 2] frames. *)
Theorem main_returns_after_close (k fuel : nat) :
  window_created P = true →
  glad_loaded P = true →
  (∀ j, j < k → quiet (arriving P j) = true) →
  quiet (arriving P k) = false →
  (if close_requested (arriving P k) then S k else S (S k)) < fuel →
  ∃ d,
    main P fuel fresh_desk = (Some 0%Z, d) ∧
    frames_shown d = (if close_requested (arriving P k) then S k else S (S k)) ∧
    polls d = frames_shown d ∧
    terminated d = true ∧
    printed d = [].
Proof.
  intros Hw Hg Hquiet Hk Hfuel.
  destruct (before_loop_run Hw Hg fuel) as (d0 & Hmain & Hrun0 & Hp0 & Hf0 & Hpr0 & Ht0 & _).
  rewrite Hmain. clear Hmain.
  (* the quiet frames *)
  assert (Hsplit : ∃ rest, fuel = k + S (S rest)).
  { destruct (close_requested (arriving P k)); exists (fuel - k - 2); lia. }
  destruct Hsplit as [rest ->].
  destruct (render_loop_quiet k (S (S rest)) d0 Hrun0)
    as (dk & Hloop & (Hs & He & Hc) & Hp & Hf & Hpr & Ht).
  { intros j Hj. apply Hquiet. lia. }
  rewrite Hloop. clear Hloop.
  (* the iteration in which the events arrive *)
  rewrite (render_loop_go _ dk Hs).
  destruct (iteration_run dk Hc) as (Hs1 & He1 & Hc1 & Hp1 & Hf1 & Hpr1 & Ht1).
  cbv zeta in *.
  set (d1 := (frame P (made_call WindowShouldClose dk).2).2) in *.
  rewrite Hp, Hp0 in Hs1, He1. cbn [Nat.add] in Hs1, He1.
  rewrite Hs, He in Hs1. cbn [orb] in Hs1.
  unfold quiet in Hk.
  destruct (close_requested (arriving P k)) eqn:Hclose.
  - (* close request: the next test ends the loop *)
    rewrite (render_loop_stop _ d1 Hs1). cbn [fst snd].
    destruct (tested d1) as (_ & _ & _ & Hp2 & Hf2 & Hpr2 & _).
    destruct (glfwTerminate_run (made_call WindowShouldClose d1).2)
      as (Ht3 & Hp3 & Hf3 & Hpr3).
    cbv zeta in *.
    eexists. split; [reflexivity|].
    repeat split; try congruence; lia.
  - (* escape key: one more iteration *)
    rewrite andb_true_r in Hk. apply negb_false_iff in Hk.
    rewrite Hk in He1.
    assert (Hfuel' : ∃ rest', rest = S rest') by (exists (rest - 1); lia).
    destruct Hfuel' as [rest' ->].
    rewrite (render_loop_go _ d1 Hs1).
    destruct (iteration_run d1 Hc1) as (Hs2 & He2 & Hc2 & Hp2 & Hf2 & Hpr2 & Ht2).
    cbv zeta in *.
    set (d2 := (frame P (made_call WindowShouldClose d1).2).2) in *.
    rewrite He1, orb_true_r in Hs2. cbn [orb] in Hs2.
    rewrite (render_loop_stop _ d2 Hs2). cbn [fst snd].
    destruct (tested d2) as (_ & _ & _ & Hp3 & Hf3 & Hpr3 & _).
    destruct (glfwTerminate_run (made_call WindowShouldClose d2).2)
      as (Ht4 & Hp4 & Hf4 & Hpr4).
    cbv zeta in *.
    eexists. split; [reflexivity|].
    repeat split; try congruence; lia.
Qed.

(** X14: the loop does not end by itself.  When the window is created
    and the entry points are loaded, and the events of the first [fuel]
    polls are quiet, then after [fuel] tests of the condition the loop is
    still running: [fuel] frames were shown, GLFW is not terminated and
    [main] has not returned. *)
Theorem main_keeps_running (fuel : nat) :
  window_created P = true →
  glad_loaded P = true →
  (∀ j, j < fuel → quiet (arriving P j) = true) →
  ∃ d,
    main P fuel fresh_desk = (None, d) ∧
    frames_shown d = fuel ∧
    polls d = fuel ∧
    terminated d = false ∧
    printed d = [].
Proof.
  intros Hw Hg Hquiet.
  destruct (before_loop_run Hw Hg fuel) as (d0 & Hmain & Hrun0 & Hp0 & Hf0 & Hpr0 & Ht0 & _).
  rewrite Hmain. clear Hmain.
  destruct (render_loop_quiet fuel 0 d0 Hrun0)
    as (d' & Hloop & _ & Hp & Hf & Hpr & Ht).
  { intros j Hj. apply Hquiet. lia. }
  rewrite Nat.add_0_r in Hloop. rewrite Hloop. cbn [render_loop wret fst snd].
  exists d'. split; [reflexivity|]. repeat split; try congruence; lia.
Qed.

(** X15: [main] returns -1 exactly when the window cannot be created
    or the entry points cannot be loaded.  It then never enters the
    render loop (no frame, no poll) and prints the one message of that
    failure.  GLFW is terminated when the window failed, but it is left
    running when the loader failed. *)
Theorem main_fails_before_the_loop (fuel : nat) :
  ∃ r d,
    main P fuel fresh_desk = (r, d) ∧
    (r = Some (-1)%Z ↔ window_created P = false ∨ glad_loaded P = false) ∧
    (r = Some (-1)%Z →
     frames_shown d = 0 ∧ polls d = 0 ∧
     printed d =
       [if window_created P then "Failed to initialize GLAD" +:+ nl
        else "Failed to create GLFW window" +:+ nl] ∧
     terminated d = negb (window_created P)).
Proof.
  destruct (window_created P) eqn:Hw; [destruct (glad_loaded P) eqn:Hg|].
  - destruct (before_loop_run Hw Hg fuel) as (d0 & Hmain & _).
    rewrite Hmain. cbv zeta.
    destruct (render_loop P fuel d0) as [[] d1]; cbn [fst snd];
      eexists _, _; (split; [reflexivity|]);
      (split; [split; [discriminate | intros [|]; discriminate] | discriminate]).
  - destruct (apple P) eqn:Ha; eexists _, _; (split; [
      unfold main, glfwCreateWindow, gladLoadGLLoader; rewrite Ha, Hw, Hg;
      run_main; reflexivity
    | split; [split; [by right | reflexivity] | intros _; by repeat split] ]).
  - destruct (apple P) eqn:Ha; eexists _, _; (split; [
      unfold main, glfwCreateWindow; rewrite Ha, Hw;
      run_main; cbv [glfwTerminate wbind made_call
        terminated should_close escape callback_set polls viewport printed made];
      reflexivity
    | split; [split; [by left | reflexivity] | intros _; by repeat split] ]).
Qed.

Lemma frame_viewport (d : desk) :
  callback_set d = true →
  viewport (frame P d).2 =
  match resized (arriving P (polls d)) with
  | Some (width, height) => Some (0, 0, width, height)%Z
  | None => viewport d
  end.
Proof.
  intros Hcb. destruct d as [t sc es cb n vp pr md].
  cbn in Hcb. subst cb.
  destruct es;
    cbv [frame processInput glfwGetKey_escape_pressed glfwSetWindowShouldClose
         glClearColor glClear glfwSwapBuffers glfwPollEvents
         framebuffer_size_callback glViewport wbind wret made_call
         terminated should_close escape callback_set polls viewport printed made
         snd];
    by destruct (resized (arriving P n)) as [[width height]|].
Qed.

(** What the loop keeps true. *)
Lemma render_loop_invariant (fuel : nat) (d : desk) :
  callback_set d = true →
  viewport d = last_resize P (polls d) →
  polls d = frames_shown d →
  let d' := (render_loop P fuel d).2 in
  viewport d' = last_resize P (polls d') ∧ polls d' = frames_shown d'.
Proof.
  revert d. induction fuel as [|fuel IH]; intros d Hcb Hvp Hp; [done|].
  destruct (tested d) as (Hs & He & Hc & Hp1 & Hf1 & _).
  cbv zeta in *.
  destruct (should_close d) eqn:Hclose.
  - rewrite (render_loop_stop _ d Hclose). cbn [snd].
    split; [|congruence].
    destruct d; cbn in *. congruence.
  - rewrite (render_loop_go _ d Hclose).
    destruct (iteration_run d Hcb) as (_ & _ & Hc' & Hp' & Hf' & _).
    cbv zeta in *.
    apply IH; [exact Hc' | | congruence].
    rewrite frame_viewport by congruence.
    rewrite Hp', Hp1. cbn [last_resize].
    destruct (resized (arriving P (polls d))) as [[width height]|]; [done|].
    destruct d; cbn in *. congruence.
Qed.

(** X17: whatever arrives and however long [main] runs, every frame
    shown has been followed by exactly one poll, and the viewport is the
    one set by [framebuffer_size_callback] for the last resize that a
    poll has processed: origin (0, 0) and the new size; the program
    never sets the viewport otherwise. *)
Theorem main_viewport_follows_resizes (fuel : nat) :
  ∃ r d,
    main P fuel fresh_desk = (r, d) ∧
    polls d = frames_shown d ∧
    viewport d = last_resize P (polls d).
Proof.
  destruct (window_created P) eqn:Hw; [destruct (glad_loaded P) eqn:Hg|].
  - destruct (before_loop_run Hw Hg fuel)
      as (d0 & Hmain & (_ & _ & Hc0) & Hp0 & Hf0 & _ & _ & Hv0).
    rewrite Hmain. cbv zeta.
    destruct (render_loop_invariant fuel d0 Hc0) as [Hv Hp];
      [by rewrite Hp0, Hv0 | congruence |].
    cbv zeta in Hv, Hp.
    destruct (render_loop P fuel d0) as [[] d1]; cbn [fst snd] in *;
      eexists _, _; (split; [reflexivity|]); [|done].
    destruct (glfwTerminate_run d1) as (_ & Hp3 & Hf3 & _). cbv zeta in *.
    split; [congruence|].
    rewrite Hp3, <- Hv. by destruct d1.
  - destruct (apple P) eqn:Ha; eexists _, _; (split; [
      unfold main, glfwCreateWindow, gladLoadGLLoader; rewrite Ha, Hw, Hg;
      run_main; reflexivity
    | by split ]).
  - destruct (apple P) eqn:Ha; eexists _, _; (split; [
      unfold main, glfwCreateWindow; rewrite Ha, Hw;
      run_main; cbv [glfwTerminate wbind made_call
        terminated should_close escape callback_set polls viewport printed made];
      reflexivity
    | by split ]).
Qed.

End WindowProgram.

(** ** An object whose build failed *)

Section FailedBuild.
Context {D : GL.Driver}.
Import GL.

(** X16: the driver rejects every call on an object whose build did
    not link.  Whatever sequence of [use], [setBool], [setInt] and
    [setFloat] calls is made on it, the shader objects, the program
    objects and the current program stay as the build left them ([use]
    does not install the program, and no location is resolved in it);
    after the first call the error flag holds [GL_INVALID_OPERATION],
    unless it held a code before the build, which leaves the flag
    alone. *)
Theorem failed_build_calls_are_rejected vertexPath fragmentPath w sh w' ms :
  Shader.Shader vertexPath fragmentPath w = (Ok sh, w') →
  glGetProgramiv (Shader.ID sh) (gl w') = Some false →
  ∃ w'',
    run_calls sh ms w' = (Ok sh, w'') ∧
    shaders (gl w'') = shaders (gl w') ∧
    programs (gl w'') = programs (gl w') ∧
    current_program (gl w'') = current_program (gl w') ∧
    error_flag (gl w') = error_flag (gl w) ∧
    error_flag (gl w'') =
      match ms, error_flag (gl w) with
      | _ :: _, GL_NO_ERROR => GL_INVALID_OPERATION
      | _, flag => flag
      end.
Proof.
  intros Hbuild Hstatus.
  pose proof (Shader_built vertexPath fragmentPath w) as H. cbv zeta in H.
  destruct (build_names_unused (gl w)) as (_ & _ & Hp). cbv zeta in Hp.
  rewrite H in Hbuild. injection Hbuild as <- <-.
  cbn [Shader.ID gl programs] in *.
  unfold glGetProgramiv in Hstatus. cbn [programs] in Hstatus.
  rewrite lookup_insert_eq in Hstatus. cbn in Hstatus.
  injection Hstatus as Hstatus.
  match type of Hstatus with po_link_status ?po = false =>
    match goal with |- context [run_calls ?sh ms ?w1] =>
      destruct (unlinked_calls_rejected sh ms po w1) as (w'' & Hrun & Hgl)
    end
  end.
  - cbn [Shader.ID]. intros Hz. apply Hp. rewrite Hz. unfold names. set_solver.
  - cbn [Shader.ID gl programs]. by rewrite lookup_insert_eq.
  - exact Hstatus.
  - exists w''. split; [exact Hrun|]. rewrite Hgl.
    destruct ms as [|m ms].
    + cbn [gl error_flag]. repeat split; done.
    + match goal with |- context [record_error ?e ?c] =>
        destruct (record_error_objects e c) as (Hs & Hpr & Hc);
        rewrite Hs, Hpr, Hc, (record_error_flag e c) end.
      cbn [gl error_flag]. repeat split; try done.
Qed.

End FailedBuild.
(** ** Further concrete runs *)

Section MoreRuns.
Import GL.
#[local] Existing Instance Demo.driver.

Lemma fragment_read_failure_witness :
  files Demo.start !! "shader.vs" = Some (File Demo.vertex_ok) ∧
  files Demo.start !! "missing.fs" = None ∧
  ∃ sh w',
    Shader.Shader "shader.vs" "missing.fs" Demo.start = (Ok sh, w') ∧
    List.filter is_file_event (calls w') =
      [EvOpen "shader.vs"; EvOpen "missing.fs"; EvClose "shader.vs"] ∧
    open_streams w' = [].
Proof.
  split; [vm_compute; reflexivity|]. split; [vm_compute; reflexivity|].
  destruct (@fragment_read_failure_discards_vertex Demo.driver
              "shader.vs" "missing.fs" (File Demo.vertex_ok) Demo.start)
    as (sh & w' & out & v & f & po & sv & sf & okv & okf & okl
        & Hrun & _ & _ & Hf & Hopen & _);
    [vm_compute; reflexivity | vm_compute; reflexivity |].
  exists sh, w'. split; [exact Hrun|]. split; [exact Hf | exact Hopen].
Defined.

Lemma readable_files_witness :
  files Demo.start !! "shader.vs" = Some (File Demo.vertex_ok) ∧
  files Demo.start !! "shader.fs" = Some (File Demo.fragment_int) ∧
  ∃ sh w' out,
    Shader.Shader "shader.vs" "shader.fs" Demo.start = (Ok sh, w') ∧
    cout w' = out ∧
    count is_file_diagnostic out = 0.
Proof.
  split; [vm_compute; reflexivity|]. split; [vm_compute; reflexivity|].
  destruct (@readable_files_reach_the_driver Demo.driver
              "shader.vs" "shader.fs" Demo.vertex_ok Demo.fragment_int Demo.start)
    as (sh & w' & out & evs & v & f & po & sv & sf & Hrun & Hout & _ & _ & _
        & _ & _ & _ & _ & _ & Hc);
    [vm_compute; reflexivity | vm_compute; reflexivity |].
  exists sh, w', out. split; [exact Hrun|]. split; [exact Hout | exact Hc].
Defined.

Lemma source_ends_at_first_NUL_witness :
  files Demo.start_with_NUL !! "nul.vs" =
    Some (File (Demo.vertex_ok +:+ String zero "this is not GLSL")) ∧
  files Demo.start_with_NUL !! "shader.fs" = Some (File Demo.fragment_int) ∧
  NUL_free Demo.vertex_ok = true ∧
  ∃ sh w' s so,
    Shader.Shader "nul.vs" "shader.fs" Demo.start_with_NUL = (Ok sh, w') ∧
    shaders (gl w') !! s = Some so ∧
    so_source so = Demo.vertex_ok ∧
    so_compile_status so = true.
Proof.
  split; [vm_compute; reflexivity|]. split; [vm_compute; reflexivity|].
  split; [vm_compute; reflexivity|].
  destruct (@source_ends_at_first_NUL Demo.driver GL_VERTEX_SHADER
              "nul.vs" "shader.fs"
              (Demo.vertex_ok +:+ String zero "this is not GLSL")
              Demo.fragment_int Demo.vertex_ok "this is not GLSL"
              Demo.start_with_NUL)
    as (sh & w' & s & so & po & Hrun & _ & _ & Hs & _ & Hsrc & Hst & _);
    [vm_compute; reflexivity | vm_compute; reflexivity | reflexivity
     | vm_compute; reflexivity |].
  exists sh, w', s, so. split; [exact Hrun|]. split; [exact Hs|].
  split; [exact Hsrc|]. rewrite Hst. vm_compute. reflexivity.
Defined.

Lemma unreadable_file_witness :
  files Demo.start !! "shaders" = Some Unreadable ∧
  files Demo.start !! "shader.fs" = Some (File Demo.fragment_int) ∧
  ∃ sh w' out,
    Shader.Shader "shaders" "shader.fs" Demo.start = (Ok sh, w') ∧
    cout w' = out ∧
    count is_file_diagnostic out = 0.
Proof.
  split; [vm_compute; reflexivity|]. split; [vm_compute; reflexivity|].
  destruct (@unreadable_file_reads_as_empty Demo.driver GL_VERTEX_SHADER
              "shaders" "shader.fs" Demo.start)
    as (sh & w' & out & evs & s & so & po & Hrun & Hout & Hc & _);
    [vm_compute; reflexivity | eexists; vm_compute; reflexivity |].
  exists sh, w', out. split; [exact Hrun|]. split; [exact Hout | exact Hc].
Defined.

(** [setInt] with 48 on the sampler of a driver with 48 texture units
    (numbered from 0): the write is rejected. *)
Lemma use_then_set_witness :
  programs (gl Demo.textured) !! 3%N = Some Demo.texture_program ∧
  error_flag (gl Demo.textured) = GL_NO_ERROR ∧
  ∃ w',
    (Shader.use Demo.good ;; set_uniform Demo.good "ourTexture" (IntArg 48))
      Demo.textured = (Ok tt, w') ∧
    glGetUniform 3 (glGetUniformLocation 3 "ourTexture" (gl w')) (gl w') =
    Some (VInt 0) ∧
    error_flag (gl w') = GL_INVALID_VALUE.
Proof.
  assert (Hp : programs (gl Demo.textured) !! Shader.ID Demo.good =
               Some Demo.texture_program) by (vm_compute; reflexivity).
  assert (Hf : error_flag (gl Demo.textured) = GL_NO_ERROR)
    by (vm_compute; reflexivity).
  split; [exact Hp|]. split; [exact Hf|].
  destruct (use_then_set_reads_back Demo.good "ourTexture" (IntArg 48)
              Demo.texture_program Demo.textured Hp)
    as (w' & u & Hrun & Hu & _ & Hget & Herr).
  - reflexivity.
  - eexists. split; [apply list_elem_of_here | reflexivity].
  - exists w'. split; [exact Hrun|].
    cbn in Hu. injection Hu as <-. rewrite Hf in Herr.
    split; [exact Hget | exact Herr].
Defined.

Lemma set_uniform_keeps_other_names_witness :
  let w := (Demo.two_uniforms Demo.start).2 in
  glGetUniformLocation 3 "first" (gl w) ≠ glGetUniformLocation 3 "u_name" (gl w) ∧
  current_program (gl w) = 3%N ∧
  ∃ w',
    set_uniform Demo.good "u_name" (IntArg 5) w = (Ok tt, w') ∧
    glGetUniform 3 (glGetUniformLocation 3 "first" (gl w')) (gl w') =
    Some (VInt 7).
Proof.
  intros w.
  assert (Hne : glGetUniformLocation 3 "first" (gl w) ≠
                glGetUniformLocation 3 "u_name" (gl w))
    by (vm_compute; discriminate).
  assert (Hbefore : glGetUniform 3 (glGetUniformLocation 3 "first" (gl w)) (gl w) =
                    Some (VInt 7)) by (vm_compute; reflexivity).
  split; [exact Hne|]. split; [vm_compute; reflexivity|].
  destruct (set_uniform_keeps_other_names Demo.good "u_name" "first" (IntArg 5)
              w Hne) as (w' & Hrun & _ & Hsame).
  exists w'. split; [exact Hrun|]. rewrite <- Hbefore. exact Hsame.
Defined.

Lemma failed_build_calls_are_rejected_witness :
  Shader.Shader "broken.vs" "shader.fs" Demo.start =
    (Ok Demo.good, Demo.broken_built) ∧
  glGetProgramiv 3 (gl Demo.broken_built) = Some false ∧
  ∃ w'',
    run_calls Demo.good [Use; SetUniform "u_name" (IntArg 5)] Demo.broken_built =
      (Ok Demo.good, w'') ∧
    programs (gl w'') = programs (gl Demo.broken_built) ∧
    current_program (gl w'') = 0%N ∧
    error_flag (gl w'') = GL_INVALID_OPERATION.
Proof.
  assert (H1 : Shader.Shader "broken.vs" "shader.fs" Demo.start =
               (Ok Demo.good, Demo.broken_built)) by (vm_compute; reflexivity).
  assert (H2 : glGetProgramiv (Shader.ID Demo.good) (gl Demo.broken_built) =
               Some false)
    by (vm_compute; reflexivity).
  split; [exact H1|]. split; [exact H2|].
  destruct (@failed_build_calls_are_rejected Demo.driver "broken.vs" "shader.fs"
              Demo.start Demo.good Demo.broken_built
              [Use; SetUniform "u_name" (IntArg 5)] H1 H2)
    as (w'' & Hrun & _ & Hp & Hc & _ & He).
  exists w''. split; [exact Hrun|]. split; [exact Hp|].
  split; [rewrite Hc; vm_compute; reflexivity | exact He].
Defined.

Lemma demo_platform_quiet (j : nat) :
  j < 2 → Window.quiet (GLFW.arriving Window.demo_platform j) = true.
Proof. intros Hj. destruct j as [|[|j]]; [reflexivity | reflexivity | lia]. Qed.

Lemma main_returns_after_close_witness :
  Window.quiet (GLFW.arriving Window.demo_platform 2) = false ∧
  ∃ d,
    Window.main Window.demo_platform 10 GLFW.fresh_desk = (Some 0%Z, d) ∧
    Window.frames_shown d = 4 ∧
    GLFW.terminated d = true.
Proof.
  split; [reflexivity|].
  destruct (main_returns_after_close Window.demo_platform 2 10)
    as (d & Hrun & Hf & _ & Ht & _).
  - reflexivity.
  - reflexivity.
  - exact demo_platform_quiet.
  - reflexivity.
  - cbn. lia.
  - exists d. split; [exact Hrun|]. split; [exact Hf | exact Ht].
Defined.

Lemma main_keeps_running_witness :
  ∃ d,
    Window.main Window.demo_platform 2 GLFW.fresh_desk = (None, d) ∧
    Window.frames_shown d = 2 ∧
    GLFW.terminated d = false.
Proof.
  destruct (main_keeps_running Window.demo_platform 2)
    as (d & Hrun & Hf & _ & Ht & _).
  - reflexivity.
  - reflexivity.
  - exact demo_platform_quiet.
  - exists d. split; [exact Hrun|]. split; [exact Hf | exact Ht].
Defined.

End MoreRuns.
